(** * MadhwaGPT OCR extraction pipeline ([ocr_extract.py])

    A shallow embedding of the batched OCR pipeline: the page splitter, the
    two retry loops ([ocr_page], [correct_text]), the page labels, the batch
    windows and the scheduler [run_pipeline], followed by the properties of
    the specification that concern them.

    Conventions.
    - A Python [str] is a list of Unicode code points ([list N]); [U] turns a
      literal into such a list.
    - A Python [int] is a [Z].
    - The remote model, the PDF tools and the thread pool are collaborators:
      they are arguments of the functions that use them.
    - A computation is a pair of the trace of external events it caused and
      its outcome (a value, or an exception that propagates).  Console
      messages ([print]) are not part of the trace. *)

From Stdlib Require Import ZArith QArith String Ascii DecimalString.
From Stdlib Require Import Floats Uint63.
From Stdlib Require DecimalZ DecimalPos.
From stdpp Require Import base numbers list list_numbers sorting gmap.

Local Open Scope Z_scope.

(** ** Strings *)

Module PyStr.

Abbreviation str := (list N) (only parsing).

(** A literal: one code point per character of the (ASCII) literal. *)
Definition U (s : string) : str := N_of_ascii <$> list_ascii_of_string s.

(** [str.isspace] on one code point: the table of CPython's
    [_PyUnicode_IsWhitespace]. *)
Definition isspace (c : N) : bool :=
  ((9 <=? c) && (c <=? 13) || (28 <=? c) && (c <=? 32)
   || (c =? 133) || (c =? 160) || (c =? 5760)
   || (8192 <=? c) && (c <=? 8202)
   || (c =? 8232) || (c =? 8233) || (c =? 8239) || (c =? 8287)
   || (c =? 12288))%N.

Fixpoint lstrip (s : str) : str :=
  match s with
  | [] => []
  | c :: s' => if isspace c then lstrip s' else s
  end.

Definition rstrip (s : str) : str := reverse (lstrip (reverse s)).

(** [s.strip()] *)
Definition strip (s : str) : str := rstrip (lstrip s).

(** [sep.join(l)] *)
Fixpoint join (sep : str) (l : list str) : str :=
  match l with
  | [] => []
  | [s] => s
  | s :: l' => s ++ sep ++ join sep l'
  end.

(** [s.startswith(p)] *)
Fixpoint startswith (p s : str) : bool :=
  match p, s with
  | [], _ => true
  | _ :: _, [] => false
  | a :: p', b :: s' => (a =? b)%N && startswith p' s'
  end.

(** [sub in s] *)
Fixpoint contains (sub s : str) : bool :=
  startswith sub s ||
  match s with
  | [] => false
  | _ :: s' => contains sub s'
  end.

(** [c * n] for a one-character string [c] *)
Definition repeat_char (c : N) (n : nat) : str := replicate n c.

(** [str(z)] / [f"{z}"] for an int: decimal digits, a minus sign when
    negative. *)
Definition of_int (z : Z) : str := U (NilZero.string_of_int (Z.to_int z)).

(** No whitespace at either end. *)
Definition trimmed (s : str) : Prop :=
  (∀ c, head s = Some c → isspace c = false) ∧
  (∀ c, last s = Some c → isspace c = false).

End PyStr.
Export PyStr.

(** ** Outcomes, events and computations *)

(** The classes the handlers tell apart.  [OtherException] is any other
    class derived from [Exception]; [SystemExiting] is a class derived from
    [BaseException] only ([KeyboardInterrupt], [SystemExit], ..), which
    [except Exception] does not catch. *)
Inductive exn_class :=
  IndexError | AttributeError | ValueError | OtherException | SystemExiting.

Global Instance exn_class_eq_dec : EqDecision exn_class.
Proof. solve_decision. Defined.

(** An exception: its class (up to the classes the handlers tell apart) and
    [str(e)]. *)
Record exn := Exn { exn_cls : exn_class; exn_msg : str }.

(** [except Exception] catches [e]. *)
Definition except_Exception (e : exn) : bool :=
  bool_decide (exn_cls e ≠ SystemExiting).

Inductive outcome (A : Type) :=
  | Returned (a : A)
  | Raised (e : exn).
Arguments Returned {A} a.
Arguments Raised {A} e.

(** ** Images *)

(** A page raster, or a crop of one: [Crop src (left, upper, right, lower)]
    is [src.crop((left, upper, right, lower))]. *)
Inductive image :=
  | Raster (id : Z) (w h : Z)
  | Crop (src : image) (box : Z * Z * Z * Z).

(** [img.size] *)
Definition size (img : image) : Z * Z :=
  match img with
  | Raster _ w h => (w, h)
  | Crop _ (l, u, r, b) => (r - l, b - u)
  end.

(** ** [range] *)

(** Number of elements of [range(start, stop, step)] for [step ≠ 0]. *)
Definition range_len (start stop step : Z) : Z :=
  if 0 <? step then
    if start <? stop then (stop - start - 1) / step + 1 else 0
  else
    if stop <? start then (start - stop - 1) / (- step) + 1 else 0.

(** The elements of [range(start, stop, step)] for [step ≠ 0]. *)
Definition range_items (start stop step : Z) : list Z :=
  (λ k, start + k * step) <$> seqZ 0 (range_len start stop step).

(** [range(start, stop, step)]; a zero step raises [ValueError]. *)
Definition py_range (start stop step : Z) : outcome (list Z) :=
  if step =? 0 then
    Raised (Exn ValueError (U "range() arg 3 must not be zero"))
  else Returned (range_items start stop step).

(** ** Batch windows ([run_pipeline], the head of the batch loop) *)

(** [batch_end = min(batch_start + batch_size - 1, total_pages)] *)
Definition batch_end (total_pages batch_size batch_start : Z) : Z :=
  Z.min (batch_start + batch_size - 1) total_pages.

(** The windows [(batch_start, batch_end)] the batch loop goes through. *)
Definition batch_windows (total_pages batch_size : Z)
    : outcome (list (Z * Z)) :=
  match py_range 1 (total_pages + 1) batch_size with
  | Returned starts =>
      Returned ((λ s, (s, batch_end total_pages batch_size s)) <$> starts)
  | Raised e => Raised e
  end.

(** The windows the batch loop goes through from a given start on. *)
Definition windows_from (total_pages batch_size start : Z) : list (Z * Z) :=
  (λ s, (s, batch_end total_pages batch_size s))
    <$> range_items start (total_pages + 1) batch_size.

(** The page indices of a window, in order. *)
Definition window_pages (w : Z * Z) : list Z := seqZ w.1 (w.2 - w.1 + 1).

(** ** Page labels ([_ocr_task]) *)

Definition page_label (start_page idx : Z) : str :=
  let printed_page := idx - start_page + 1 in
  if 1 <=? printed_page
  then U "Page " ++ of_int printed_page
  else U "[Front Matter p." ++ of_int idx ++ U "]".

(** ** Binary64 arithmetic used by the page splitter

    [split_vertical] evaluates [h > w * 1.4] on Python numbers: [w] is
    converted to a double, multiplied by the double nearest to 1.4 with
    round-to-nearest-even, and the int [h] is compared with the product
    exactly.  The product is represented by the integer [R] with value
    [R / 2^52].  (No overflow or subnormal arises for image sizes.) *)

Module Binary64.

(** The double nearest to 1.4 is [mant_1_4 / 2^52]. *)
Definition mant_1_4 : Z := 6305039478318694.

(** Round a non-negative integer to 53 significant bits, ties to even. *)
Definition round53_pos (p : Z) : Z :=
  let s := Z.log2 p - 52 in
  if s <=? 0 then p
  else
    let q := p / 2 ^ s in
    let r := p mod 2 ^ s in
    let half := 2 ^ (s - 1) in
    let q' := if (half <? r) || ((r =? half) && Z.odd q) then q + 1 else q in
    q' * 2 ^ s.

Definition round53 (p : Z) : Z :=
  if p <? 0 then - round53_pos (- p) else round53_pos p.

(** [w * 1.4], scaled by [2^52]. *)
Definition mul_1_4 (w : Z) : Z := round53 (round53 w * mant_1_4).

(** [h > w * 1.4] *)
Definition gt_mul_1_4 (h w : Z) : bool := mul_1_4 w <? h * 2 ^ 52.

(** The same test on the machine's doubles, for sizes below [2^53]. *)
Definition machine_gt_mul_1_4 (h w : Z) : bool :=
  PrimFloat.ltb
    (PrimFloat.mul (PrimFloat.of_uint63 (Uint63.of_Z w))
                   0x1.6666666666666p+0%float)
    (PrimFloat.of_uint63 (Uint63.of_Z h)).

End Binary64.

(** [h > 1.4 * w] on the rationals. *)
Definition taller_than_1_4 (w h : Z) : Prop :=
  (1.4 * inject_Z w < inject_Z h)%Q.

(** ** Page splitter *)

Definition split_vertical (page : image) : list image :=
  let '(w, h) := size page in
  if Binary64.gt_mul_1_4 h w then
    let mid := h / 2 in
    [Crop page (0, 0, w, mid); Crop page (0, mid, w, h)]
  else [page].

(** ** The remote model *)

(** One candidate of a response: the [text] of each of its content parts
    ([None] for a part without text). *)
Record candidate := Candidate { parts : list (option str) }.

(** What the retry loops read of a response [r]: [r.candidates] (a missing
    list reads as the empty one) and the accessor [r.text], which may
    raise. *)
Record response := Response { candidates : list candidate; text : outcome str }.

(** ** Events *)

Inductive model_kind := OcrModel | CorrModel.
Inductive out_dir := RAW_DIR | CORR_DIR.

#[warnings="-register-all"]
Inductive event :=
  | EvConfigure (k : model_kind)
      (** [build_model]: the client is configured and a model is made *)
  | EvOcrRequest (chunk : image)
      (** [generate_content] on the OCR model with the PNG of [chunk] *)
  | EvCorrRequest (raw : str)
      (** [generate_content] on the correction model with
          [CORRECT_FEWSHOT + raw] *)
  | EvSleep (secs : Z)
  | EvRender (first_page last_page : Z)
      (** [convert_from_path] *)
  | EvPool (tasks : list (list event))
      (** one batch on the thread pool: the events of each task, in the
          order the tasks were submitted *)
  | EvWrite (dir : out_dir) (name : str) (content : str).

(** ** Computations *)

Definition io (A : Type) : Type := list event * outcome A.

Global Instance io_ret : MRet io := λ A a, ([], Returned a).
Global Instance io_bind : MBind io := λ A B f m,
  match m.2 with
  | Returned a => (m.1 ++ (f a).1, (f a).2)
  | Raised e => (m.1, Raised e)
  end.

Definition raise {A} (e : exn) : io A := ([], Raised e).
Definition emit (ev : event) : io () := ([ev], Returned ()).

(** [for x in l: s = body(s, x)] *)
Fixpoint for_each {A S} (l : list A) (body : S → A → io S) (s : S) : io S :=
  match l with
  | [] => mret s
  | x :: l' => s' ← body s x; for_each l' body s'
  end.

(** Number of model invocations and the waits in a trace. *)
Definition is_request (ev : event) : bool :=
  match ev with EvOcrRequest _ | EvCorrRequest _ => true | _ => false end.
Definition invocations (t : list event) : nat :=
  sum_list ((λ ev, if is_request ev then 1%nat else 0%nat) <$> t).
Definition sleeps (t : list event) : list Z :=
  omap (λ ev, match ev with EvSleep s => Some s | _ => None end) t.

(** ** Retry loops *)

Definition NL : str := [10%N].

(** ["DeadlineExceeded" in str(e) or "504" in str(e)] *)
Definition is_timeout (e : exn) : bool :=
  contains (U "DeadlineExceeded") (exn_msg e) || contains (U "504") (exn_msg e).

(** [wait_time = (attempt + 1) * 10] *)
Definition backoff (attempt : Z) : Z := (attempt + 1) * 10.

(** The retry loop of [ocr_page] for one chunk, over the attempts that are
    left.  [service attempt] is what the call of that attempt does.  The
    result is what the loop appends to [out]: [None] when it ends without
    appending. *)
Fixpoint ocr_attempts (service : Z → outcome response) (chunk : image)
    (max_retries : Z) (attempts : list Z) : io (option str) :=
  match attempts with
  | [] => mret None
  | attempt :: rest =>
      emit (EvOcrRequest chunk);;
      let retry_or (last : io (option str)) : io (option str) :=
        if attempt <? max_retries - 1
        then emit (EvSleep (backoff attempt));;
             ocr_attempts service chunk max_retries rest
        else last in
      match service attempt with
      | Returned r =>
          match candidates r with
          | [] => retry_or (mret (Some []))
          | c :: _ => mret (Some (strip (concat (default [] <$> parts c))))
          end
      | Raised e =>
          if decide (exn_cls e = IndexError) then retry_or (mret (Some []))
          else if except_Exception e then
            if is_timeout e then retry_or (raise e) else raise e
          else raise e
      end
  end.

(** [ocr_page(model, img, max_retries)]; [service c] answers the calls made
    for chunk [c]. *)
Definition ocr_page (service : image → Z → outcome response) (img : image)
    (max_retries : Z) : io str :=
  let chunks := split_vertical img in
  out ← for_each chunks (λ out c,
           t ← ocr_attempts (service c) c max_retries (seqZ 0 max_retries);
           mret (out ++ option_list t)) [];
  mret (join NL out).

(** The retry loop of chunk [c] of a page ends by appending [t]. *)
Definition chunk_text (service : image → Z → outcome response) (c : image)
    (t : str) : Prop :=
  (ocr_attempts (service c) c 3 (seqZ 0 3)).2 = Returned (Some t).

(** The retry loop of [correct_text]; [None] is Python's [None], returned
    when the loop ends without a [return]. *)
Fixpoint correct_attempts (service : Z → outcome response) (raw : str)
    (max_retries : Z) (attempts : list Z) : io (option str) :=
  match attempts with
  | [] => mret None
  | attempt :: rest =>
      emit (EvCorrRequest raw);;
      let retry_or (last : io (option str)) : io (option str) :=
        if attempt <? max_retries - 1
        then emit (EvSleep (backoff attempt));;
             correct_attempts service raw max_retries rest
        else last in
      let handler (e : exn) : io (option str) :=
        if decide (exn_cls e = IndexError ∨ exn_cls e = AttributeError)
        then retry_or (mret (Some raw))
        else if except_Exception e then
          if is_timeout e then retry_or (raise e) else raise e
        else raise e in
      match service attempt with
      | Returned r =>
          match candidates r with
          | [] => retry_or (mret (Some raw))
          | _ :: _ =>
              match text r with
              | Returned t => mret (Some (strip t))
              | Raised e => handler e
              end
          end
      | Raised e => handler e
      end
  end.

(** [correct_text(model, raw, max_retries)]; [service raw] answers the calls
    made for the text [raw]. *)
Definition correct_text (service : str → Z → outcome response) (raw : str)
    (max_retries : Z) : io (option str) :=
  correct_attempts (service raw) raw max_retries (seqZ 0 max_retries).

(** ** Runs of the retry loops *)

(** What a loop does that retries on every attempt from [attempt] on, [n]
    attempts being left: a request per attempt, a wait between two. *)
Fixpoint retry_trace (req : event) (attempt : Z) (n : nat) : list event :=
  match n with
  | O => []
  | 1%nat => [req]
  | S n' => req :: EvSleep (backoff attempt) :: retry_trace req (attempt + 1) n'
  end.

(** The attempts that are left when [n] of them are: the last one is
    attempt [max_retries - 1]. *)
Definition remaining (max_retries : Z) (n : nat) : list Z :=
  seqZ (max_retries - Z.of_nat n) (Z.of_nat n).

(** How a run of [correct_text] may end: with a string, which is the input
    or the trimmed text of a response, or with an exception. *)
Definition ends_well (service : Z → outcome response) (raw : str)
    (o : outcome (option str)) : Prop :=
  (∃ s, o = Returned (Some s) ∧
        (s = raw ∨ ∃ k r t, service k = Returned r ∧ text r = Returned t
                            ∧ s = strip t))
  ∨ (∃ e, o = Raised e).

(** How the retry loop of a chunk may end: by appending a trimmed text, or
    with an exception. *)
Definition chunk_ends_well (o : outcome (option str)) : Prop :=
  (∃ t, o = Returned (Some t) ∧ trimmed t) ∨ (∃ e, o = Raised e).

(** ** The PDF and its tools *)

(** What the pipeline sees of a PDF file: the stem of its name, the
    dictionary [pdfinfo_from_path] returns for it, and its page rasters. *)
Record pdf := Pdf { stem : str; info : gmap str Z; pages : list image }.

(** [pdfinfo_from_path(pdf_path).get("Pages", 0)] *)
Definition page_count (pdf_path : pdf) : Z :=
  default 0 (info pdf_path !! U "Pages").

(** [convert_from_path(pdf_path, dpi=DPI, first_page=.., last_page=..)]:
    the rasters of the pages [first_page .. last_page] that exist. *)
Definition convert_from_path (pdf_path : pdf) (first_page last_page : Z)
    : io (list image) :=
  emit (EvRender first_page last_page);;
  let first := Z.max 1 first_page in
  mret (take (Z.to_nat (last_page - first + 1))
          (drop (Z.to_nat (first - 1)) (pages pdf_path))).

(** [build_model]: [api_key] is [os.getenv("GEMINI_API_KEY")]. *)
Definition build_model (api_key : option str) (k : model_kind) : io () :=
  match api_key with
  | None | Some [] =>
      raise (Exn ValueError
               ([10060%N; 32%N] ++ U "Missing GEMINI_API_KEY in .env"))
  | Some _ => emit (EvConfigure k)
  end.

(** ** The scheduler *)

(** What [_ocr_task] returns: [(idx, page_label, raw)]. *)
Definition page_tuple : Type := Z * str * str.

Definition _ocr_task (ocr_service : image → Z → outcome response)
    (start_page : Z) (idx : Z) (page : image) (total : Z) : io page_tuple :=
  let page_label := page_label start_page idx in
  raw ← ocr_page ocr_service page 3;
  mret (idx, page_label, raw).

(** [l.sort(key=key)]: the stable sort, written as an insertion sort. *)
Fixpoint insert_by_key {A} (key : A → Z) (x : A) (l : list A) : list A :=
  match l with
  | [] => [x]
  | y :: l' => if key x <=? key y then x :: l else y :: insert_by_key key x l'
  end.

Definition sort_by_key {A} (key : A → Z) (l : list A) : list A :=
  foldr (insert_by_key key) [] l.

(** [fut.result()]: the value of a completed task, or its exception. *)
Definition result {A} (fut : io A) : io A := ([], fut.2).

(** [f"\n{'='*20} {page_label} {'='*20}\n{text}"] *)
Definition block (page_label text : str) : str :=
  NL ++ repeat_char 61 20 ++ U " " ++ page_label ++ U " "
     ++ repeat_char 61 20 ++ NL ++ text.

(** [f"{corrected}"] for a value that is a string or [None]. *)
Definition format_value (v : option str) : str := default (U "None") v.

Definition two_pass (mode : str) : bool := bool_decide (mode = U "two-pass").

(** The body of the correction loop, [for idx, page_label, raw in
    batch_results], on the accumulators [(raw_pages, corr_pages)]. *)
Definition correct_and_append (corr_service : str → Z → outcome response)
    (mode : str) (acc : list str * list str) (r : page_tuple)
    : io (list str * list str) :=
  let '(raw_pages, corr_pages) := acc in
  let '(idx, page_label, raw) := r in
  corrected ← (if two_pass mode then correct_text corr_service raw 3
               else mret None);
  let raw_pages := raw_pages ++ [block page_label raw] in
  if two_pass mode
  then mret (raw_pages,
             corr_pages ++ [block page_label (format_value corrected)])
  else mret (raw_pages, corr_pages).

(** The tasks submitted for a batch, [_ocr_task(batch_start + i, page,
    total_pages)] for [i, page] in [enumerate(batch_pages)], each with the
    events it causes and its outcome. *)
Definition submit_all (ocr_service : image → Z → outcome response)
    (start_page total_pages batch_start : Z) (batch_pages : list image)
    : list (io page_tuple) :=
  imap (λ i page, _ocr_task ocr_service start_page
                    (batch_start + Z.of_nat i) page total_pages) batch_pages.

(** The body of the batch loop.  [as_completed] hands the futures over in
    the order the pool completes them, here [sched batch_start futures]. *)
Definition process_batch
    (sched : Z → list (io page_tuple) → list (io page_tuple))
    (ocr_service : image → Z → outcome response)
    (corr_service : str → Z → outcome response)
    (pdf_path : pdf) (start_page : Z) (mode : str) (batch_size total_pages : Z)
    (acc : list str * list str) (batch_start : Z) : io (list str * list str) :=
  let batch_end := batch_end total_pages batch_size batch_start in
  batch_pages ← convert_from_path pdf_path batch_start batch_end;
  let futures := submit_all ocr_service start_page total_pages batch_start
                   batch_pages in
  emit (EvPool (fst <$> futures));;
  batch_results ← for_each (sched batch_start futures)
                     (λ batch_results fut,
                        r ← result fut; mret (batch_results ++ [r])) [];
  let batch_results := sort_by_key (λ x : page_tuple, x.1.1) batch_results in
  for_each batch_results (correct_and_append corr_service mode) acc.

(** What [run_pipeline] returns: [None], [full_raw], or
    [(full_raw, full_corr)]. *)
Inductive pipeline_result :=
  | NoResult
  | RawOnly (full_raw : str)
  | RawAndCorrected (full_raw full_corr : str).

Definition lift {A} (o : outcome A) : io A := ([], o).

Definition run_pipeline
    (sched : Z → list (io page_tuple) → list (io page_tuple))
    (api_key : option str)
    (ocr_service : image → Z → outcome response)
    (corr_service : str → Z → outcome response)
    (pdf_path : pdf) (start_page : Z) (mode : str) (batch_size : Z)
    : io pipeline_result :=
  let total_pages := page_count pdf_path in
  if total_pages =? 0 then mret NoResult
  else
    build_model api_key OcrModel;;
    (if two_pass mode then build_model api_key CorrModel else mret ());;
    starts ← lift (py_range 1 (total_pages + 1) batch_size);
    acc ← for_each starts
            (process_batch sched ocr_service corr_service pdf_path start_page
               mode batch_size total_pages) ([], []);
    let '(raw_pages, corr_pages) := acc in
    let full_raw := join (NL ++ NL) raw_pages in
    emit (EvWrite RAW_DIR (stem pdf_path ++ U "_ocr_raw.txt") full_raw);;
    if two_pass mode then
      let full_corr := join (NL ++ NL) corr_pages in
      emit (EvWrite CORR_DIR (stem pdf_path ++ U "_ocr_corrected.txt")
              full_corr);;
      mret (RawAndCorrected full_raw full_corr)
    else mret (RawOnly full_raw).

(** ** The document a run is expected to assemble *)

(** The tuples of the pages [first, first + 1, ..] whose OCR texts are
    [raws], in ascending page order. *)
Definition expected_results (start_page first : Z) (raws : list str)
    : list page_tuple :=
  imap (λ i raw, (first + Z.of_nat i,
                  page_label start_page (first + Z.of_nat i), raw)) raws.

(** The labelled blocks of the pages [first, first + 1, ..] with the given
    texts, in ascending page order. *)
Definition page_blocks (start_page first : Z) (texts : list str) : list str :=
  imap (λ i t, block (page_label start_page (first + Z.of_nat i)) t) texts.

Global Arguments block : simpl never.
Global Arguments page_label : simpl never.

(** The value of a completed task that did not raise. *)
Definition value_of {A} (fut : io A) : option A :=
  match fut.2 with Returned v => Some v | Raised _ => None end.

(** ** The interactive layer

    The functions that ask for the run's settings read lines of standard
    input.  They are functions of the lines that are left, to the lines
    left afterwards and an outcome; [input()] with no line left raises
    [EOFError].  The builtin [int] is a collaborator: [int s] is the integer
    a text stands for, or the exception the builtin raises for it. *)

Definition EOFError : exn := Exn OtherException (U "EOF when reading a line").

(** [l[i]] on a Python list: a negative index counts from the end. *)
Definition py_getitem {A} (l : list A) (i : Z) : outcome A :=
  let n := Z.of_nat (length l) in
  let j := if i <? 0 then i + n else i in
  match (if (0 <=? j) && (j <? n) then l !! Z.to_nat j else None) with
  | Some x => Returned x
  | None => Raised (Exn IndexError (U "list index out of range"))
  end.

(** [select_pdf()]; [pdfs] is [list(DATA_DIR.glob("*.pdf"))]. *)
Definition select_pdf (int : str → outcome Z) (pdfs : list pdf)
    (stdin : list str) : list str * outcome (option pdf) :=
  match pdfs with
  | [] => (stdin, Returned None)
  | _ :: _ =>
      match stdin with
      | [] => ([], Raised EOFError)
      | line :: stdin' =>
          match int line with
          | Returned idx =>
              match py_getitem pdfs (idx - 1) with
              | Returned f => (stdin', Returned (Some f))
              | Raised e => (stdin', Raised e)
              end
          | Raised e => (stdin', Raised e)
          end
      end
  end.

(** [get_int_input(prompt, min_val)] *)
Fixpoint get_int_input (int : str → outcome Z) (min_val : Z)
    (stdin : list str) : list str * outcome Z :=
  match stdin with
  | [] => ([], Raised EOFError)
  | line :: stdin' =>
      let value := strip line in
      match value with
      | [] => get_int_input int min_val stdin'
      | _ :: _ =>
          match int value with
          | Returned num =>
              if min_val <=? num then (stdin', Returned num)
              else get_int_input int min_val stdin'
          | Raised e =>
              if decide (exn_cls e = ValueError)
              then get_int_input int min_val stdin'
              else (stdin', Raised e)
          end
      end
  end.

(** [get_start_page()] *)
Definition get_start_page (int : str → outcome Z) (stdin : list str)
    : list str * outcome Z :=
  get_int_input int 1 stdin.

(** [get_ocr_mode()] *)
Fixpoint get_ocr_mode (stdin : list str) : list str * outcome str :=
  match stdin with
  | [] => ([], Raised EOFError)
  | line :: stdin' =>
      let choice := strip line in
      if bool_decide (choice = U "1") then (stdin', Returned (U "one-pass"))
      else if bool_decide (choice = U "2")
      then (stdin', Returned (U "two-pass"))
      else get_ocr_mode stdin'
  end.

(** [get_batch_size()] *)
Fixpoint get_batch_size (int : str → outcome Z) (stdin : list str)
    : list str * outcome Z :=
  match stdin with
  | [] => ([], Raised EOFError)
  | line :: stdin' =>
      let choice := strip line in
      match choice with
      | [] => (stdin', Returned 10)
      | _ :: _ =>
          match int choice with
          | Returned batch_size =>
              if 1 <=? batch_size then (stdin', Returned batch_size)
              else get_batch_size int stdin'
          | Raised e =>
              if decide (exn_cls e = ValueError)
              then get_batch_size int stdin'
              else (stdin', Raised e)
          end
      end
  end.

(** How the script ends when nothing is raised: with [sys.exit()], or
    after [run_pipeline] returned. *)
Inductive main_end :=
  | Exited
  | Ran (v : pipeline_result).

(** A step of the script that reads input, then the rest of the script. *)
Definition and_then {A B} (m : list str * outcome A)
    (rest : A → list str → list str * io B) : list str * io B :=
  match m.2 with
  | Returned a => rest a m.1
  | Raised e => (m.1, raise e)
  end.

(** The script, [if __name__ == "__main__"]: the lines left on standard
    input, the events of the run and how it ends. *)
Definition main (int : str → outcome Z)
    (sched : Z → list (io page_tuple) → list (io page_tuple))
    (api_key : option str)
    (ocr_service : image → Z → outcome response)
    (corr_service : str → Z → outcome response)
    (pdfs : list pdf) (stdin : list str) : list str * io main_end :=
  and_then (select_pdf int pdfs stdin) (λ pdf stdin,
    match pdf with
    | None => (stdin, mret Exited)
    | Some pdf =>
        and_then (get_ocr_mode stdin) (λ mode stdin,
        and_then (get_batch_size int stdin) (λ batch_size stdin,
        and_then (get_start_page int stdin) (λ start_page stdin,
          (stdin,
           v ← run_pipeline sched api_key ocr_service corr_service pdf
                 start_page mode batch_size;
           mret (Ran v)))))
    end).

(** ** Lines the prompts pass over *)

(** A line [get_int_input] asks again after: blank, an integer below
    [min_val], or a text [int] rejects with [ValueError]. *)
Definition passed_over_by_int_input (int : str → outcome Z) (min_val : Z)
    (line : str) : Prop :=
  strip line = [] ∨
  (∃ num, int (strip line) = Returned num ∧ num < min_val) ∨
  (∃ e, int (strip line) = Raised e ∧ exn_cls e = ValueError).

(** A line [get_batch_size] asks again after: not blank, and an integer
    below 1 or a text [int] rejects with [ValueError]. *)
Definition passed_over_by_batch_size (int : str → outcome Z) (line : str)
    : Prop :=
  strip line ≠ [] ∧
  ((∃ num, int (strip line) = Returned num ∧ num < 1) ∨
   (∃ e, int (strip line) = Raised e ∧ exn_cls e = ValueError)).

(** A line [get_ocr_mode] asks again after: anything but 1 or 2. *)
Definition passed_over_by_mode (line : str) : Prop :=
  strip line ≠ U "1" ∧ strip line ≠ U "2".

(** ** Events of a run, by kind *)

(** What an event holds: the events of the tasks of a pool, task by task
    in the order the tasks were submitted (the tasks run side by side: the
    order between events of two tasks is not one of time); any other event
    holds itself. *)
Fixpoint events_of (ev : event) : list event :=
  match ev with
  | EvPool tasks => flat_map (flat_map events_of) tasks
  | _ => [ev]
  end.

(** All the events of a trace, those inside the pools included. *)
Definition all_events (t : list event) : list event := flat_map events_of t.

(** The correction model is made or called, by the event or inside it. *)
Fixpoint is_correction_event (ev : event) : bool :=
  match ev with
  | EvCorrRequest _ | EvConfigure CorrModel => true
  | EvPool tasks => existsb (existsb is_correction_event) tasks
  | _ => false
  end.

(** The page ranges the renderer was asked for, in order, inside the pools
    as well. *)
Definition renders (t : list event) : list (Z * Z) :=
  omap (λ ev, match ev with EvRender f l => Some (f, l) | _ => None end)
    (all_events t).

(** The files written, in order, inside the pools as well: directory, name
    and content. *)
Definition written (t : list event) : list (out_dir * str * str) :=
  omap (λ ev, match ev with EvWrite d n c => Some (d, n, c) | _ => None end)
    (all_events t).

(** An event of the OCR of a page: a request to the OCR model or a wait. *)
Definition ocr_step (ev : event) : Prop :=
  (∃ chunk, ev = EvOcrRequest chunk) ∨ (∃ secs, ev = EvSleep secs).

(** An event of the correction loop: a request to the correction model or
    a wait. *)
Definition correction_step (ev : event) : Prop :=
  (∃ raw, ev = EvCorrRequest raw) ∨ (∃ secs, ev = EvSleep secs).


(** A timeout the second handler retries: an exception that
    [except Exception] catches and whose text has one of the markers. *)
Definition caught_timeout (e : exn) : Prop :=
  except_Exception e = true ∧ is_timeout e = true.

(** Responses after which the loops try again: no candidates, an error of
    the classes read as an empty response, or a timeout. *)
Definition retried_by_ocr (o : outcome response) : Prop :=
  match o with
  | Returned r => candidates r = []
  | Raised e => exn_cls e = IndexError ∨ caught_timeout e
  end.

Definition retried_by_correct (o : outcome response) : Prop :=
  match o with
  | Returned r =>
      candidates r = [] ∨
      ∃ e, text r = Raised e ∧
           (exn_cls e = IndexError ∨ exn_cls e = AttributeError
            ∨ caught_timeout e)
  | Raised e =>
      exn_cls e = IndexError ∨ exn_cls e = AttributeError
      ∨ caught_timeout e
  end.

(** The first events of a run on a PDF with pages, when the key is set. *)
Definition configured (mode : str) : list event :=
  EvConfigure OcrModel
    :: (if two_pass mode then [EvConfigure CorrModel] else []).

(** ** Sample inputs *)

(** A stand-in for [int] that reads unsigned ASCII decimal literals and
    rejects any other text with a [ValueError]. *)
Fixpoint digits_value (acc : Z) (s : str) : option Z :=
  match s with
  | [] => Some acc
  | c :: s' =>
      if ((48 <=? c) && (c <=? 57))%N
      then digits_value (10 * acc + Z.of_N (c - 48)) s'
      else None
  end.

(** A model that finds no candidate at the first call and answers from the
    second call on. *)
Definition second_try (attempt : Z) : outcome response :=
  if attempt =? 0 then Returned (Response [] (Returned []))
  else Returned (Response [Candidate [Some (U " abc"); None; Some (U "d ")]]
                   (Returned (U " fixed "))).

Definition sample_int (s : str) : outcome Z :=
  match strip s with
  | [] => Raised (Exn ValueError (U "invalid literal for int()"))
  | digits =>
      match digits_value 0 digits with
      | Some z => Returned z
      | None => Raised (Exn ValueError (U "invalid literal for int()"))
      end
  end.

(** A three-page PDF of pages that are not split. *)
Definition sample_pdf : pdf :=
  Pdf (U "book") {[ U "Pages" := 3 ]}
    [Raster 1 600 700; Raster 2 600 700; Raster 3 600 700].

(** A PDF for which the page counter reports no page. *)
Definition empty_pdf : pdf := Pdf (U "blank") {[ U "Pages" := 0 ]} [].

(** An OCR model that reads every page and finds nothing in a crop. *)
Definition sample_ocr (chunk : image) (attempt : Z) : outcome response :=
  match chunk with
  | Raster id _ _ =>
      Returned (Response [Candidate [Some (U "text of page " ++ of_int id)]]
                  (Returned []))
  | Crop _ _ => Returned (Response [] (Returned []))
  end.

(** A model whose every response has no candidates. *)
Definition always_empty {A} (request : A) (attempt : Z) : outcome response :=
  Returned (Response [] (Returned [])).

(** An OCR model that finds nothing in the top half of a split page (the
    crop whose upper edge is 0) and reads ["abc"] anywhere else. *)
Definition bottom_only (chunk : image) (attempt : Z) : outcome response :=
  match chunk with
  | Crop _ (_, 0, _, _) => Returned (Response [] (Returned []))
  | _ => Returned (Response [Candidate [Some (U "abc")]] (Returned []))
  end.

(** A pool that completes the tasks of a batch last to first. *)
Definition last_first (batch_start : Z) (futures : list (io page_tuple))
    : list (io page_tuple) :=
  reverse futures.

(** * Properties *)

(** ** Binary64 *)

(** On a sample of sizes around the threshold, the integer model of the
    product agrees with the machine's doubles. *)
Lemma gt_mul_1_4_machine_sample :
  forallb (λ wh : Z * Z,
             bool_decide (Binary64.gt_mul_1_4 wh.2 wh.1
                          = Binary64.machine_gt_mul_1_4 wh.2 wh.1))
    [(45, 63); (45, 62); (45, 64); (5, 7); (600, 1000); (600, 700);
     (600, 840); (600, 841); (85, 119); (90, 126); (2600, 3640);
     (2480, 3508); (2500, 3500); (1, 1); (1, 2); (0, 0); (0, 1);
     (1000000, 1400000); (2147483645, 3006477103); (715827880, 1002159032)]
  = true.
Proof. vm_compute. reflexivity. Qed.

Lemma taller_than_1_4_iff w h : taller_than_1_4 w h ↔ 7 * w < 5 * h.
Proof.
  unfold taller_than_1_4, Qlt, Qmult, inject_Z.
  cbn [Qnum Qden]. lia.
Qed.

Section binary64_facts.
Import Binary64.

(** Rounding to 53 bits moves a number by at most half a unit in the last
    place, that is by at most [p / 2^53]. *)
Lemma round53_pos_error p :
  0 ≤ p → Z.abs (round53_pos p - p) * 2 ^ 53 ≤ p.
Proof.
  intros Hp. unfold round53_pos.
  destruct (Z.leb_spec (Z.log2 p - 52) 0) as [Hs|Hs].
  { rewrite Z.sub_diag. cbn. lia. }
  set (s := Z.log2 p - 52) in *.
  assert (0 < p) as Hpos.
  { destruct (decide (p = 0)) as [->|]; [|lia]. cbn in s. lia. }
  pose proof (Z.log2_spec p Hpos) as [Hlow _].
  replace (Z.log2 p) with (s - 1 + 1 + 52) in Hlow by lia.
  rewrite !Z.pow_add_r in Hlow by lia.
  assert (2 ^ s = 2 * 2 ^ (s - 1)) as Hpow.
  { replace s with (Z.succ (s - 1)) at 1 by lia. apply Z.pow_succ_r. lia. }
  assert (0 < 2 ^ (s - 1)) as Hhalf by (apply Z.pow_pos_nonneg; lia).
  pose proof (Z.div_mod p (2 ^ s)) as Hdiv.
  pose proof (Z.mod_pos_bound p (2 ^ s)) as Hmod.
  rewrite Hpow in *.
  set (half := 2 ^ (s - 1)) in *.
  set (q := p / (2 * half)) in *. set (r := p mod (2 * half)) in *.
  change (2 ^ 1) with 2 in Hlow. change (2 ^ 52) with 4503599627370496 in Hlow.
  change (2 ^ 53) with 9007199254740992.
  destruct ((half <? r) || (r =? half) && Z.odd q) eqn:Hup.
  - assert (half ≤ r).
    { apply orb_true_iff in Hup as [H|H]; [apply Z.ltb_lt in H; lia|].
      apply andb_true_iff in H as [H _]. apply Z.eqb_eq in H. lia. }
    nia.
  - assert (r ≤ half).
    { apply orb_false_iff in Hup as [H _]. apply Z.ltb_ge in H. lia. }
    nia.
Qed.

(** An int below [2^53] converts to a double exactly. *)
Lemma round53_small w : 0 ≤ w < 2 ^ 53 → round53 w = w.
Proof.
  intros Hw. unfold round53, round53_pos.
  rewrite (proj2 (Z.ltb_ge _ _)) by lia.
  destruct (Z.leb_spec (Z.log2 w - 52) 0) as [|Hs]; [done|].
  destruct (decide (w = 0)) as [->|]; [done|].
  assert (Z.log2 w < 53) by (apply Z.log2_lt_pow2; lia). lia.
Qed.

(** Away from [h = 1.4 * w] the test on doubles agrees with the exact one. *)
Lemma gt_mul_1_4_exact h w :
  0 ≤ w < 2 ^ 49 → 5 * h ≠ 7 * w →
  gt_mul_1_4 h w = bool_decide (7 * w < 5 * h).
Proof.
  intros Hw Hne. unfold gt_mul_1_4, mul_1_4.
  change (2 ^ 49) with 562949953421312 in Hw.
  rewrite (round53_small w) by (change (2 ^ 53) with 9007199254740992; lia).
  unfold round53.
  rewrite (proj2 (Z.ltb_ge (w * mant_1_4) 0)) by (unfold mant_1_4; lia).
  pose proof (round53_pos_error (w * mant_1_4)) as Herr.
  unfold mant_1_4 in *.
  change (2 ^ 53) with 9007199254740992 in Herr.
  change (2 ^ 52) with 4503599627370496.
  set (R := round53_pos (w * 6305039478318694)) in *.
  case_bool_decide; [apply Z.ltb_lt | apply Z.ltb_ge]; lia.
Qed.

End binary64_facts.

(** ** Page splitter *)

(** C7, as the code has it: the splitter returns the top and bottom halves
    [0, mid] and [mid, h] with [mid = h // 2], or the page alone; it
    returns the halves when [h > 1.4 * w] and the page alone when
    [h < 1.4 * w]; when [h = 1.4 * w] exactly, the rounding of [w * 1.4] on
    doubles decides.  A 600x1000 page gives two chunks 500 high, a 600x700
    page is left whole. *)
Theorem split_vertical_spec (page : image) (w h : Z) :
  size page = (w, h) → 0 ≤ w < 2 ^ 49 →
  let halves := [Crop page (0, 0, w, h / 2); Crop page (0, h / 2, w, h)] in
  (* the halves when the test on doubles holds, else the page alone *)
  split_vertical page = (if Binary64.gt_mul_1_4 h w then halves else [page]) ∧
  (* the test holds above the ratio 1.4 and fails below it *)
  (taller_than_1_4 w h → split_vertical page = halves) ∧
  ((inject_Z h < 1.4 * inject_Z w)%Q → split_vertical page = [page]) ∧
  (* the halves are as wide as the page and share its height *)
  size <$> halves = [(w, h / 2); (w, h - h / 2)] ∧
  (* the two pages of the specification *)
  split_vertical (Raster 1 600 1000)
  = [Crop (Raster 1 600 1000) (0, 0, 600, 500);
     Crop (Raster 1 600 1000) (0, 500, 600, 1000)] ∧
  split_vertical (Raster 2 600 700) = [Raster 2 600 700].
Proof.
  intros Hsize Hw halves.
  assert (split_vertical page
          = if Binary64.gt_mul_1_4 h w then halves else [page]) as Hsplit.
  { unfold split_vertical. by rewrite Hsize. }
  split; [done|]. rewrite Hsplit. split; [|split; [|split]].
  - intros Htall. apply taller_than_1_4_iff in Htall.
    rewrite gt_mul_1_4_exact by lia. by rewrite bool_decide_true by lia.
  - intros Hshort.
    assert (5 * h < 7 * w) as Hlt.
    { revert Hshort. unfold Qlt, Qmult, inject_Z. cbn [Qnum Qden]. lia. }
    rewrite gt_mul_1_4_exact by lia. by rewrite bool_decide_false by lia.
  - cbn. do 2 f_equal; f_equal; lia.
  - split; by vm_compute.
Qed.

Lemma split_vertical_spec_witness :
  split_vertical (Raster 7 2480 3508)
  = [Crop (Raster 7 2480 3508) (0, 0, 2480, 3508 / 2);
     Crop (Raster 7 2480 3508) (0, 3508 / 2, 2480, 3508)].
Proof.
  refine (proj1 (proj2 (split_vertical_spec (Raster 7 2480 3508) 2480 3508
                          _ _)) _).
  - reflexivity.
  - lia.
  - apply taller_than_1_4_iff. lia.
Defined.

(** C7 as stated fails: a 45x63 page has [h = 1.4 * w] exactly, so [h] is
    not greater than [1.4 * w], yet it is split: on doubles [45 * 1.4] is
    [62.99999999999999]. *)
Lemma split_at_exact_ratio_counterexample :
  ¬ (∀ page w h, size page = (w, h) →
       (taller_than_1_4 w h ↔ length (split_vertical page) = 2%nat)).
Proof.
  intros H. destruct (H (Raster 1 45 63) 45 63 eq_refl) as [_ Hsplit].
  apply taller_than_1_4_iff in Hsplit; [lia|]. by vm_compute.
Qed.

(** The split of the 45x63 page, next to the 5x7 one that is left whole. *)
Example split_45_63 :
  split_vertical (Raster 1 45 63)
  = [Crop (Raster 1 45 63) (0, 0, 45, 31);
     Crop (Raster 1 45 63) (0, 31, 45, 63)]
  ∧ split_vertical (Raster 1 5 7) = [Raster 1 5 7]
  ∧ Binary64.machine_gt_mul_1_4 63 45 = true.
Proof. by vm_compute. Qed.

(** ** [range] and the batch windows *)

Section range_facts.
Context (stop step : Z) (Hstep : 0 < step).

Lemma range_len_done start : stop ≤ start → range_len start stop step = 0.
Proof.
  intros H. unfold range_len.
  rewrite (proj2 (Z.ltb_lt _ _) Hstep).
  destruct (Z.ltb_spec start stop); [lia | done].
Qed.

Lemma range_len_step start :
  start < stop →
  range_len start stop step = 1 + range_len (start + step) stop step.
Proof.
  intros H. unfold range_len.
  rewrite (proj2 (Z.ltb_lt _ _) Hstep), (proj2 (Z.ltb_lt _ _) H).
  destruct (Z.ltb_spec (start + step) stop) as [Hlt|Hge].
  - replace (stop - start - 1) with (stop - (start + step) - 1 + 1 * step)
      by lia.
    rewrite Z.div_add by lia. lia.
  - rewrite Z.div_small by lia. lia.
Qed.

Lemma range_len_nonneg start : 0 ≤ range_len start stop step.
Proof.
  unfold range_len. rewrite (proj2 (Z.ltb_lt _ _) Hstep).
  destruct (Z.ltb_spec start stop); [|lia].
  assert (0 ≤ (stop - start - 1) / step) by (apply Z.div_pos; lia). lia.
Qed.

Lemma range_items_done start : stop ≤ start → range_items start stop step = [].
Proof.
  intros H. unfold range_items. by rewrite range_len_done, seqZ_nil.
Qed.

Lemma range_items_step start :
  start < stop →
  range_items start stop step = start :: range_items (start + step) stop step.
Proof.
  intros H. unfold range_items. rewrite (range_len_step start H).
  pose proof (range_len_nonneg (start + step)) as Hn.
  rewrite seqZ_cons by lia. cbn [fmap list_fmap]. f_equal; [lia|].
  replace (Z.pred (1 + range_len (start + step) stop step))
    with (range_len (start + step) stop step) by lia.
  rewrite <- (fmap_add_seqZ 1 0), <- list_fmap_compose.
  apply list_fmap_ext. intros _ k _. cbn. lia.
Qed.

Lemma range_items_lookup start (i : nat) s :
  range_items start stop step !! i = Some s ↔
  s = start + Z.of_nat i * step ∧ Z.of_nat i < range_len start stop step.
Proof.
  unfold range_items. rewrite list_lookup_fmap, fmap_Some. split.
  - intros (k & Hk & ->). apply lookup_seqZ in Hk as [-> ?]. split; [lia|done].
  - intros [-> Hi]. exists (Z.of_nat i). split; [|done].
    apply lookup_seqZ. split; [lia|done].
Qed.

Lemma range_items_length start :
  length (range_items start stop step) = Z.to_nat (range_len start stop step).
Proof. unfold range_items. by rewrite length_fmap, length_seqZ. Qed.
End range_facts.

Section windows.
Context (total_pages batch_size : Z).
Context (Htotal : 1 ≤ total_pages) (Hsize : 1 ≤ batch_size).

Local Abbreviation windows := (windows_from total_pages batch_size).

Lemma batch_windows_from :
  batch_windows total_pages batch_size = Returned (windows 1).
Proof.
  unfold batch_windows, py_range.
  destruct (Z.eqb_spec batch_size 0); [lia | done].
Qed.

Lemma windows_from_done start : total_pages < start → windows start = [].
Proof.
  intros H. unfold windows_from. rewrite range_items_done by lia. done.
Qed.

Lemma windows_from_step start :
  start ≤ total_pages →
  windows start
  = (start, batch_end total_pages batch_size start)
      :: windows (start + batch_size).
Proof.
  intros H. unfold windows_from. rewrite range_items_step by lia. done.
Qed.

(** The pages of the windows from [start] on are [start .. total_pages]. *)
Lemma windows_from_pages (n : nat) start :
  1 ≤ start ≤ total_pages + 1 →
  total_pages + 1 - start ≤ Z.of_nat n →
  concat (window_pages <$> windows start)
  = seqZ start (total_pages + 1 - start).
Proof.
  revert start. induction n as [|n IH]; intros start Hstart Hn.
  - rewrite windows_from_done by lia. by rewrite seqZ_nil by lia.
  - destruct (decide (start = total_pages + 1)) as [->|Hne].
    { rewrite windows_from_done by lia. by rewrite seqZ_nil by lia. }
    rewrite windows_from_step by lia. cbn [fmap list_fmap concat].
    unfold window_pages at 1, batch_end. cbn [fst snd].
    destruct (decide (start + batch_size ≤ total_pages + 1)) as [Hle|Hgt].
    + rewrite IH by lia. rewrite Z.min_l by lia.
      replace (total_pages + 1 - start)
        with (batch_size + (total_pages + 1 - (start + batch_size))) by lia.
      rewrite (seqZ_app start batch_size) by lia. f_equal. f_equal. lia.
    + rewrite windows_from_done by lia. rewrite Z.min_r by lia.
      rewrite app_nil_r. f_equal. lia.
Qed.

Lemma windows_lookup (i : nat) (w : Z * Z) :
  windows 1 !! i = Some w ↔
  w = (1 + Z.of_nat i * batch_size,
       Z.min (1 + Z.of_nat i * batch_size + batch_size - 1) total_pages)
  ∧ Z.of_nat i * batch_size < total_pages.
Proof.
  unfold windows_from. rewrite list_lookup_fmap, fmap_Some.
  assert (Z.of_nat i < range_len 1 (total_pages + 1) batch_size
          ↔ Z.of_nat i * batch_size < total_pages) as Hlen.
  { unfold range_len.
    rewrite (proj2 (Z.ltb_lt 0 batch_size)) by lia.
    rewrite (proj2 (Z.ltb_lt 1 (total_pages + 1))) by lia.
    assert (total_pages + 1 - 1 - 1 = total_pages - 1) as -> by lia.
    pose proof (Z.div_mod (total_pages - 1) batch_size).
    pose proof (Z.mod_pos_bound (total_pages - 1) batch_size).
    split; intros; nia. }
  split.
  - intros (s & Hs & ->). apply range_items_lookup in Hs as [-> Hi].
    split; [done | by apply Hlen].
  - intros [-> Hi]. exists (1 + Z.of_nat i * batch_size). split; [|done].
    apply range_items_lookup. split; [done | by apply Hlen].
Qed.

(** C2: for [total_pages >= 1] and [batch_size >= 1] the batch windows are
    contiguous, do not overlap, cover exactly [1 .. total_pages], and each
    holds at most [batch_size] pages, only the last one possibly fewer. *)
Theorem batch_windows_partition :
  ∃ ws, batch_windows total_pages batch_size = Returned ws ∧
    (* the pages of the windows, in order, are exactly 1 .. total_pages *)
    concat (window_pages <$> ws) = seqZ 1 total_pages ∧
    (* no window is empty, none holds more than batch_size pages *)
    Forall (λ w, 1 ≤ w.2 - w.1 + 1 ≤ batch_size) ws ∧
    (* every window but the last holds exactly batch_size pages *)
    (∀ i w, ws !! i = Some w → (S i < length ws)%nat →
            w.2 - w.1 + 1 = batch_size) ∧
    (* the first starts at 1, each next one right after the previous end,
       the last ends at total_pages *)
    (∃ w, head ws = Some w ∧ w.1 = 1) ∧
    (∀ i w w', ws !! i = Some w → ws !! S i = Some w' → w'.1 = w.2 + 1) ∧
    (∃ w, last ws = Some w ∧ w.2 = total_pages).
Proof.
  exists (windows 1). split; [apply batch_windows_from|].
  assert (∀ i w, windows 1 !! i = Some w →
            (S i < length (windows 1))%nat →
            w.2 = w.1 + batch_size - 1 ∧ w.1 = 1 + Z.of_nat i * batch_size)
    as Hfull.
  { intros i w Hw Hlt.
    apply lookup_lt_is_Some_2 in Hlt as [w' Hw'].
    apply windows_lookup in Hw as [-> _]. apply windows_lookup in Hw' as [_ Hi].
    cbn [fst snd]. lia. }
  repeat split.
  - rewrite (windows_from_pages (Z.to_nat total_pages)) by lia.
    f_equal. lia.
  - apply Forall_lookup. intros i w Hw.
    apply windows_lookup in Hw as [-> Hi]. cbn [fst snd]. lia.
  - intros i w Hw Hlt. destruct (Hfull i w Hw Hlt). lia.
  - rewrite windows_from_step by lia. eexists. split; [done|done].
  - intros i w w' Hw Hw'.
    destruct (Hfull i w Hw) as [He Hs]; [by eapply lookup_lt_Some|].
    apply windows_lookup in Hw' as [-> _]. cbn [fst]. lia.
  - rewrite last_lookup.
    destruct (windows 1 !! pred (length (windows 1)))
      as [w0|] eqn:Hw0.
    2: { apply lookup_ge_None in Hw0.
         rewrite windows_from_step in Hw0 by lia. cbn in Hw0. lia. }
    exists w0. split; [done|].
    destruct (decide (w0.2 = total_pages)) as [|Hne]; [done|]. exfalso.
    pose proof Hw0 as Hw0'. apply windows_lookup in Hw0' as [-> Hi].
    cbn [snd] in Hne.
    (* otherwise one more window would follow *)
    assert (is_Some (windows 1 !! S (pred (length (windows 1)))))
      as [w1 Hw1].
    { eexists. apply windows_lookup. split; [done|]. lia. }
    apply lookup_lt_Some in Hw1. apply lookup_lt_Some in Hw0. lia.
Qed.

End windows.

Lemma batch_windows_partition_witness :
  ∃ ws, batch_windows 12 5 = Returned ws ∧
        concat (window_pages <$> ws) = seqZ 1 12.
Proof.
  destruct (batch_windows_partition 12 5) as (ws & Hws & Hpages & _);
    [lia | lia |].
  exists ws. split; [exact Hws | exact Hpages].
Defined.

(** Twelve pages in batches of five: three batches, of 5, 5 and 2 pages. *)
Example batch_windows_12_5 :
  batch_windows 12 5 = Returned [(1, 5); (6, 10); (11, 12)].
Proof. reflexivity. Qed.

(** ** Strings *)

Lemma lstrip_head s c : head (lstrip s) = Some c → isspace c = false.
Proof.
  induction s as [|a s IH]; [done|]. cbn [lstrip].
  destruct (isspace a) eqn:Ha; [done|]. cbn. intros. by simplify_eq.
Qed.

Lemma lstrip_last s c : last (lstrip s) = Some c → last s = Some c.
Proof.
  induction s as [|a s IH]; [done|]. cbn [lstrip].
  destruct (isspace a); [|done].
  intros H. rewrite last_cons. by rewrite (IH H).
Qed.

Lemma trimmed_strip s : trimmed (strip s).
Proof.
  unfold trimmed, strip, rstrip. split; intros c.
  - rewrite head_reverse. intros H. apply lstrip_last in H.
    rewrite last_reverse in H. by apply lstrip_head in H.
  - rewrite last_reverse. apply lstrip_head.
Qed.

Lemma trimmed_nil : trimmed [].
Proof. by split. Qed.

(** Two trimmed texts joined by a newline are trimmed iff neither is
    empty. *)
Lemma trimmed_join_two t1 t2 :
  trimmed t1 → trimmed t2 →
  trimmed (join NL [t1; t2]) ↔ t1 ≠ [] ∧ t2 ≠ [].
Proof.
  intros [Hh1 _] [_ Hl2]. cbn [join]. unfold trimmed. split.
  - intros [Hh Hl]. split; intros ->.
    + by specialize (Hh 10%N eq_refl).
    + rewrite app_nil_r in Hl. specialize (Hl 10%N (last_snoc _ _)). done.
  - intros [Hne1 Hne2]. split; intros c.
    + rewrite head_app. destruct t1 as [|a t1]; [done|]. apply Hh1.
    + rewrite !last_app.
      destruct (last t2) as [b|] eqn:Hb; [|by apply last_None in Hb].
      intros. simplify_eq. by apply Hl2.
Qed.

(** ** Retry loops *)

Lemma bind_emit {A} (ev : event) (m : io A) :
  (emit ev;; m) = (ev :: m.1, m.2).
Proof. done. Qed.

Lemma bind_ret {A B} (a : A) (f : A → io B) : (mret a ≫= f) = f a.
Proof. unfold mbind, io_bind. cbn. by destruct (f a). Qed.

Lemma seqZ_succ (a : Z) (n : nat) :
  seqZ a (Z.of_nat (S n)) = a :: seqZ (a + 1) (Z.of_nat n).
Proof. rewrite seqZ_cons by lia. f_equal. f_equal; lia. Qed.

Lemma retry_trace_SS req attempt n :
  retry_trace req attempt (S (S n))
  = req :: EvSleep (backoff attempt) :: retry_trace req (attempt + 1) (S n).
Proof. done. Qed.

Lemma retry_trace_invocations req attempt n :
  is_request req = true → invocations (retry_trace req attempt n) = n.
Proof.
  intros Hreq. unfold invocations. revert attempt.
  induction n as [|[|n] IH]; intros attempt; [done| |].
  - cbn. by rewrite Hreq.
  - rewrite retry_trace_SS.
    cbn -[retry_trace]. rewrite Hreq. cbn -[retry_trace].
    by rewrite IH.
Qed.

Lemma retry_trace_sleeps req attempt n :
  is_request req = true →
  sleeps (retry_trace req attempt n)
  = backoff <$> seqZ attempt (Z.of_nat n - 1).
Proof.
  intros Hreq. unfold sleeps. revert attempt.
  induction n as [|[|n] IH]; intros attempt; [done| |].
  - cbn. by destruct req.
  - rewrite retry_trace_SS.
    assert (Z.of_nat (S (S n)) - 1 = Z.of_nat (S n)) as -> by lia.
    rewrite seqZ_succ. cbn -[retry_trace seqZ].
    rewrite IH. assert (Z.of_nat (S n) - 1 = Z.of_nat n) as -> by lia.
    by destruct req.
Qed.

Lemma retry_trace_last req attempt n :
  (1 ≤ n)%nat → last (retry_trace req attempt n) = Some req.
Proof.
  revert attempt. induction n as [|[|n] IH]; intros attempt Hn;
    [lia | done |].
  rewrite retry_trace_SS. specialize (IH (attempt + 1) ltac:(lia)).
  by destruct (retry_trace req (attempt + 1) (S n)).
Qed.

Section retry_exhaustion.
Context (max_retries : Z).

Lemma remaining_all : 0 ≤ max_retries →
  remaining max_retries (Z.to_nat max_retries) = seqZ 0 max_retries.
Proof. intros H. unfold remaining. f_equal; lia. Qed.

Lemma remaining_succ n :
  remaining max_retries (S n)
  = (max_retries - Z.of_nat (S n)) :: remaining max_retries n.
Proof. unfold remaining. rewrite seqZ_succ. do 2 f_equal. lia. Qed.

Lemma more_attempts (a : Z) (n : nat) :
  a = max_retries - Z.of_nat (S n) →
  (a <? max_retries - 1) = bool_decide (n ≠ O).
Proof.
  intros ->. destruct n; [|by rewrite (proj2 (Z.ltb_lt _ _)) by lia].
  by rewrite (proj2 (Z.ltb_ge _ _)) by lia.
Qed.

(** After the request of an attempt that retries: either it was the last
    one, or the loop waits and goes on with the attempts left. *)
Local Ltac retry_next n IH :=
  rewrite (more_attempts _ n) by done; rewrite bind_emit;
  destruct n as [|n]; [done|];
  rewrite bool_decide_true by done; rewrite bind_emit, IH by done;
  rewrite retry_trace_SS; cbn [fst snd]; do 4 f_equal; lia.

(** A chunk whose every call finds no candidates: the loop retries until
    the attempts are used up, then appends the empty string. *)
Lemma ocr_attempts_all_empty service chunk (n : nat) :
  (∀ k, ∃ r, service k = Returned r ∧ candidates r = []) →
  n ≠ O →
  ocr_attempts service chunk max_retries (remaining max_retries n)
  = (retry_trace (EvOcrRequest chunk) (max_retries - Z.of_nat n) n,
     Returned (Some [])).
Proof.
  intros Hempty. induction n as [|n IH]; [done|]. intros _.
  rewrite remaining_succ. cbn [ocr_attempts].
  destruct (Hempty (max_retries - Z.of_nat (S n))) as (r & -> & ->).
  retry_next n IH.
Qed.

(** The same for a chunk whose every call raises an [IndexError]. *)
Lemma ocr_attempts_all_index_error service chunk (n : nat) :
  (∀ k, ∃ e, service k = Raised e ∧ exn_cls e = IndexError) →
  n ≠ O →
  ocr_attempts service chunk max_retries (remaining max_retries n)
  = (retry_trace (EvOcrRequest chunk) (max_retries - Z.of_nat n) n,
     Returned (Some [])).
Proof.
  intros Hempty. induction n as [|n IH]; [done|]. intros _.
  rewrite remaining_succ. cbn [ocr_attempts].
  destruct (Hempty (max_retries - Z.of_nat (S n))) as (e & -> & He).
  rewrite decide_True by done.
  retry_next n IH.
Qed.

(** A chunk whose every call raises the same timeout: the loop retries
    until the attempts are used up, then lets the exception through. *)
Lemma ocr_attempts_all_timeout service chunk e (n : nat) :
  (∀ k, service k = Raised e) →
  exn_cls e ≠ IndexError → except_Exception e = true → is_timeout e = true →
  n ≠ O →
  ocr_attempts service chunk max_retries (remaining max_retries n)
  = (retry_trace (EvOcrRequest chunk) (max_retries - Z.of_nat n) n, Raised e).
Proof.
  intros Hsvc Hcls Hexc Htime. induction n as [|n IH]; [done|]. intros _.
  rewrite remaining_succ. cbn [ocr_attempts]. rewrite Hsvc.
  rewrite decide_False by done. rewrite Hexc, Htime.
  retry_next n IH.
Qed.

Lemma correct_attempts_all_empty service raw (n : nat) :
  (∀ k, ∃ r, service k = Returned r ∧ candidates r = []) →
  n ≠ O →
  correct_attempts service raw max_retries (remaining max_retries n)
  = (retry_trace (EvCorrRequest raw) (max_retries - Z.of_nat n) n,
     Returned (Some raw)).
Proof.
  intros Hempty. induction n as [|n IH]; [done|]. intros _.
  rewrite remaining_succ. cbn [correct_attempts].
  destruct (Hempty (max_retries - Z.of_nat (S n))) as (r & -> & ->).
  retry_next n IH.
Qed.


(** For any [max_retries >= 1]: as many calls as attempts, and the waits
    10, 20, .. between them. *)
Lemma all_empty_counts service chunk raw :
  1 ≤ max_retries →
  (∀ k, ∃ r, service k = Returned r ∧ candidates r = []) →
  let t_ocr :=
    (ocr_attempts service chunk max_retries (seqZ 0 max_retries)).1 in
  let t_corr :=
    (correct_attempts service raw max_retries (seqZ 0 max_retries)).1 in
  invocations t_ocr = Z.to_nat max_retries ∧
  sleeps t_ocr = backoff <$> seqZ 0 (max_retries - 1) ∧
  invocations t_corr = Z.to_nat max_retries ∧
  sleeps t_corr = backoff <$> seqZ 0 (max_retries - 1).
Proof.
  intros Hmax Hempty. cbn zeta. rewrite <- remaining_all by lia.
  rewrite ocr_attempts_all_empty, correct_attempts_all_empty by (done || lia).
  cbn [fst]. rewrite !retry_trace_invocations, !retry_trace_sleeps by done.
  replace (max_retries - Z.of_nat (Z.to_nat max_retries)) with 0 by lia.
  replace (Z.of_nat (Z.to_nat max_retries) - 1) with (max_retries - 1) by lia.
  done.
Qed.

Lemma correct_attempts_all_timeout service raw e (n : nat) :
  (∀ k, service k = Raised e) →
  exn_cls e ≠ IndexError → exn_cls e ≠ AttributeError →
  except_Exception e = true → is_timeout e = true →
  n ≠ O →
  correct_attempts service raw max_retries (remaining max_retries n)
  = (retry_trace (EvCorrRequest raw) (max_retries - Z.of_nat n) n, Raised e).
Proof.
  intros Hsvc Hcls Hcls' Hexc Htime.
  induction n as [|n IH]; [done|]. intros _.
  rewrite remaining_succ. cbn [correct_attempts]. rewrite Hsvc.
  rewrite decide_False by (intros [?|?]; done). rewrite Hexc, Htime.
  retry_next n IH.
Qed.

Lemma correct_attempts_ends_well service raw (n : nat) :
  n ≠ O →
  ends_well service raw
    (correct_attempts service raw max_retries (remaining max_retries n)).2.
Proof.
  induction n as [|n IH]; [done|]. intros _.
  rewrite remaining_succ. cbn [correct_attempts].
  rewrite (more_attempts _ n) by done. rewrite bind_emit. cbn [snd].
  set (a := max_retries - Z.of_nat (S n)).
  assert (∀ last, ends_well service raw last.2 →
            ends_well service raw
              (if bool_decide (n ≠ O)
               then emit (EvSleep (backoff a));;
                    correct_attempts service raw max_retries
                      (remaining max_retries n)
               else last).2) as Hretry.
  { intros last Hlast. case_bool_decide; [|done].
    rewrite bind_emit. cbn [snd]. by apply IH. }
  assert (ends_well service raw (mret (Some raw) : io (option str)).2)
    as Hraw by (left; eauto).
  assert (∀ e, ends_well service raw (raise e : io (option str)).2)
    as Hraise by (right; eauto).
  destruct (service a) as [r|e] eqn:Hr.
  - destruct (candidates r); [by apply Hretry|].
    destruct (text r) as [t|e] eqn:Ht.
    + left. exists (strip t). split; [done|]. right. by exists a, r, t.
    + destruct (decide _); [by apply Hretry|].
      destruct (except_Exception e); [|done].
      destruct (is_timeout e); [by apply Hretry | done].
  - destruct (decide _); [by apply Hretry|].
    destruct (except_Exception e); [|done].
    destruct (is_timeout e); [by apply Hretry | done].
Qed.

Lemma ocr_attempts_ends_well service chunk (n : nat) :
  n ≠ O →
  chunk_ends_well
    (ocr_attempts service chunk max_retries (remaining max_retries n)).2.
Proof.
  induction n as [|n IH]; [done|]. intros _.
  rewrite remaining_succ. cbn [ocr_attempts].
  rewrite (more_attempts _ n) by done. rewrite bind_emit. cbn [snd].
  set (a := max_retries - Z.of_nat (S n)).
  assert (∀ last, chunk_ends_well last.2 →
            chunk_ends_well
              (if bool_decide (n ≠ O)
               then emit (EvSleep (backoff a));;
                    ocr_attempts service chunk max_retries
                      (remaining max_retries n)
               else last).2) as Hretry.
  { intros last Hlast. case_bool_decide; [|done].
    rewrite bind_emit. cbn [snd]. by apply IH. }
  assert (chunk_ends_well (mret (Some []) : io (option str)).2) as Hempty.
  { left. exists []. split; [done | apply trimmed_nil]. }
  assert (∀ e, chunk_ends_well (raise e : io (option str)).2) as Hraise
    by (right; eauto).
  destruct (service a) as [r|e].
  - destruct (candidates r) as [|c ?]; [by apply Hretry|].
    left. eexists. split; [done | apply trimmed_strip].
  - destruct (decide _); [by apply Hretry|].
    destruct (except_Exception e); [|done].
    destruct (is_timeout e); [by apply Hretry | done].
Qed.

End retry_exhaustion.

(** C3: an operation whose every call gives a response without candidates
    is called exactly 3 times when [max_retries = 3], with a wait between
    two attempts, and the loop then yields the fallback and raises nothing:
    the empty string for an OCR chunk, the raw text for the correction. *)
Theorem empty_responses_fall_back
    (ocr_service : image → Z → outcome response)
    (corr_service : str → Z → outcome response) (chunk : image) (raw : str) :
  (∀ k, ∃ r, ocr_service chunk k = Returned r ∧ candidates r = []) →
  (∀ k, ∃ r, corr_service raw k = Returned r ∧ candidates r = []) →
  (* the retry loop of an OCR chunk *)
  ocr_attempts (ocr_service chunk) chunk 3 (seqZ 0 3)
  = ([EvOcrRequest chunk; EvSleep 10; EvOcrRequest chunk; EvSleep 20;
      EvOcrRequest chunk], Returned (Some [])) ∧
  invocations (ocr_attempts (ocr_service chunk) chunk 3 (seqZ 0 3)).1 = 3%nat ∧
  (* the OCR of a page that is a single chunk *)
  (split_vertical chunk = [chunk] →
   ocr_page ocr_service chunk 3
   = ([EvOcrRequest chunk; EvSleep 10; EvOcrRequest chunk; EvSleep 20;
       EvOcrRequest chunk], Returned [])) ∧
  (* the correction *)
  correct_text corr_service raw 3
  = ([EvCorrRequest raw; EvSleep 10; EvCorrRequest raw; EvSleep 20;
      EvCorrRequest raw], Returned (Some raw)) ∧
  invocations (correct_text corr_service raw 3).1 = 3%nat.
Proof.
  intros Hocr Hcorr.
  pose proof (ocr_attempts_all_empty 3 (ocr_service chunk) chunk 3 Hocr) as H1.
  pose proof (correct_attempts_all_empty 3 (corr_service raw) raw 3 Hcorr)
    as H2.
  change (remaining 3 3) with (seqZ 0 3) in H1, H2.
  unfold correct_text. rewrite H1, H2 by done.
  split_and!; [done..| |done|done].
  intros Hsplit. unfold ocr_page. rewrite Hsplit. cbn [for_each].
  by rewrite H1.
Qed.

Lemma empty_responses_fall_back_witness :
  ocr_page always_empty (Raster 1 600 700) 3
  = ([EvOcrRequest (Raster 1 600 700); EvSleep 10;
      EvOcrRequest (Raster 1 600 700); EvSleep 20;
      EvOcrRequest (Raster 1 600 700)], Returned []).
Proof.
  refine (proj1 (proj2 (proj2 (empty_responses_fall_back always_empty
                                 always_empty (Raster 1 600 700) (U "raw")
                                 _ _))) _).
  - intros k. eexists. split; reflexivity.
  - intros k. eexists. split; reflexivity.
  - reflexivity.
Defined.

(** C10: for [max_retries >= 1] the correction ends with a string (the
    trimmed text of a response, or the input unchanged) or with an
    exception, never with [None]; with [max_retries = 0] the loop body does
    not run and the result is [None]. *)
Theorem correct_text_never_none
    (service : str → Z → outcome response) (raw : str) (max_retries : Z) :
  1 ≤ max_retries →
  ends_well (service raw) raw (correct_text service raw max_retries).2 ∧
  (correct_text service raw max_retries).2 ≠ Returned None ∧
  correct_text service raw 0 = ([], Returned None).
Proof.
  intros Hmax.
  assert (ends_well (service raw) raw (correct_text service raw max_retries).2)
    as Hend.
  { unfold correct_text. rewrite <- (remaining_all max_retries) by lia.
    apply correct_attempts_ends_well. lia. }
  split; [done|]. split; [|done].
  destruct Hend as [(s & -> & _)|[e ->]]; discriminate.
Qed.

Lemma correct_text_never_none_witness :
  (correct_text (λ _ _, Returned (Response [] (Returned []))) (U "raw") 3).2
  ≠ Returned None.
Proof.
  refine (proj1 (proj2 (correct_text_never_none
                          (λ _ _, Returned (Response [] (Returned [])))
                          (U "raw") 3 _))).
  lia.
Defined.

(** ** Computations: outcomes of compound computations *)

Lemma bind_outcome {A B} (m : io A) (f : A → io B) :
  (m ≫= f).2
  = match m.2 with Returned a => (f a).2 | Raised e => Raised e end.
Proof. unfold mbind, io_bind. by destruct (m.2). Qed.

Lemma bind_returned {A B} (m : io A) (f : A → io B) a :
  m.2 = Returned a → (m ≫= f).2 = (f a).2.
Proof. intros H. by rewrite bind_outcome, H. Qed.

Lemma bind_returned_inv {A B} (m : io A) (f : A → io B) b :
  (m ≫= f).2 = Returned b → ∃ a, m.2 = Returned a ∧ (f a).2 = Returned b.
Proof. rewrite bind_outcome. destruct (m.2); [eauto | done]. Qed.

(** A loop whose body keeps an invariant keeps it when it returns. *)
Lemma for_each_invariant {A S} (P : S → Prop) (l : list A)
    (body : S → A → io S) s s' :
  (∀ s x s', P s → x ∈ l → (body s x).2 = Returned s' → P s') →
  P s → (for_each l body s).2 = Returned s' → P s'.
Proof.
  revert s. induction l as [|x l IH]; intros s Hbody Hs Hrun.
  - cbn in Hrun. by simplify_eq.
  - cbn [for_each] in Hrun. apply bind_returned_inv in Hrun as (s1 & H1 & H2).
    eapply IH; [|..|done].
    + intros s0 x0 s0' HP Hin. apply Hbody; [done|].
      apply elem_of_cons. by right.
    + eapply Hbody; [done| |done]. apply elem_of_cons. by left.
Qed.

(** ** The text of a page *)

Lemma split_vertical_chunks img :
  (∃ c, split_vertical img = [c]) ∨ (∃ c1 c2, split_vertical img = [c1; c2]).
Proof.
  unfold split_vertical. destruct (size img) as [w h].
  destruct (Binary64.gt_mul_1_4 h w); eauto.
Qed.

(** What the loop over the chunks leaves in [out]: the text each chunk
    appended, in chunk order. *)
Lemma ocr_chunks_loop (service : image → Z → outcome response) max_retries
    chunks (out out' : list str) :
  (for_each chunks
     (λ out c,
        t ← ocr_attempts (service c) c max_retries (seqZ 0 max_retries);
        mret (out ++ option_list t)) out).2 = Returned out'
  ↔ ∃ appended,
      Forall2 (λ c t, (ocr_attempts (service c) c max_retries
                         (seqZ 0 max_retries)).2 = Returned t)
        chunks appended
      ∧ out' = out ++ omap id appended.
Proof.
  revert out. induction chunks as [|c chunks IH]; intros out.
  - cbn. split.
    + intros. simplify_eq. exists []. by rewrite app_nil_r.
    + intros (appended & H & ->). apply Forall2_nil_inv_l in H as ->.
      by rewrite app_nil_r.
  - cbn [for_each]. split.
    + intros H. apply bind_returned_inv in H as (out1 & H1 & H).
      apply bind_returned_inv in H1 as (t & Ht & H1).
      cbn in H1. simplify_eq.
      apply IH in H as (appended & Hall & ->).
      exists (t :: appended). split; [by constructor|].
      rewrite <- app_assoc. by destruct t.
    + intros (appended & H & ->).
      apply Forall2_cons_inv_l in H as (t & appended' & Ht & H & ->).
      rewrite (bind_returned _ _ (out ++ option_list t))
        by (by rewrite (bind_returned _ _ t)).
      apply IH. exists appended'. split; [done|].
      rewrite <- app_assoc. by destruct t.
Qed.

(** C6, as the code has it: the raw text of a page is the texts of its
    chunks, each trimmed (or empty, for a chunk that fell back), joined in
    chunk order by single newlines; it has no leading or trailing
    whitespace iff the page is one chunk or no chunk text is empty. *)
Theorem ocr_page_text (service : image → Z → outcome response) (img : image) :
  (∀ raw,
     (ocr_page service img 3).2 = Returned raw
     ↔ ∃ texts, Forall2 (chunk_text service) (split_vertical img) texts
                ∧ raw = join NL texts) ∧
  (∀ texts,
     Forall2 (chunk_text service) (split_vertical img) texts →
     Forall trimmed texts ∧
     (trimmed (join NL texts) ↔ length texts = 1%nat ∨ [] ∉ texts)).
Proof.
  assert (∀ chunks texts, Forall2 (chunk_text service) chunks texts →
            Forall trimmed texts) as Htrim.
  { intros chunks texts H. induction H as [|c t ?? Ht _ IH]; constructor;
      [|done].
    pose proof (ocr_attempts_ends_well 3 (service c) c 3) as Hend.
    change (remaining 3 3) with (seqZ 0 3) in Hend.
    unfold chunk_text in Ht. rewrite Ht in Hend.
    destruct Hend as [(t' & ? & ?)|[e ?]]; [done| |done]. by simplify_eq. }
  split.
  - intros raw. unfold ocr_page. split.
    + intros H. apply bind_returned_inv in H as (out & Hout & H).
      cbn in H. simplify_eq.
      apply ocr_chunks_loop in Hout as (appended & Hall & ->).
      exists (omap id appended). split; [|done]. clear Htrim.
      induction Hall as [|c t ?? Ht _ IH]; [constructor|].
      pose proof (ocr_attempts_ends_well 3 (service c) c 3) as Hend.
      change (remaining 3 3) with (seqZ 0 3) in Hend. rewrite Ht in Hend.
      destruct Hend as [(t' & ? & _)|[e ?]]; [done| |done]. simplify_eq.
      cbn. by constructor.
    + intros (texts & Hall & ->).
      rewrite (bind_returned _ _ texts); [done|].
      apply ocr_chunks_loop. exists (Some <$> texts). split.
      * by apply Forall2_fmap_r.
      * cbn. clear. induction texts as [|t texts IH]; [done|].
        cbn. by rewrite <- IH.
  - intros texts Hall. split; [by eapply Htrim|].
    pose proof (Htrim _ _ Hall) as Ht.
    destruct (split_vertical_chunks img) as [[c Hc]|(c1 & c2 & Hc)];
      rewrite Hc in Hall.
    + apply Forall2_cons_inv_l in Hall as (t & ? & _ & Hnil & ->).
      apply Forall2_nil_inv_l in Hnil as ->.
      apply Forall_cons in Ht as [Ht _]. cbn [join]. split; [by left|done].
    + apply Forall2_cons_inv_l in Hall as (t1 & ? & _ & Hall & ->).
      apply Forall2_cons_inv_l in Hall as (t2 & ? & _ & Hnil & ->).
      apply Forall2_nil_inv_l in Hnil as ->.
      apply Forall_cons in Ht as [Ht1 Ht]. apply Forall_cons in Ht as [Ht2 _].
      rewrite trimmed_join_two by done. split.
      * intros [??]. right. rewrite !not_elem_of_cons.
        split_and!; [done..|]. apply not_elem_of_nil.
      * intros [?|Hnot]; [done|]. rewrite !not_elem_of_cons in Hnot.
        destruct Hnot as (? & ? & _). done.
Qed.

Lemma ocr_page_text_witness :
  (ocr_page bottom_only (Raster 1 600 1000) 3).2
  = Returned (join NL [[]; U "abc"]).
Proof.
  apply (proj1 (ocr_page_text bottom_only (Raster 1 600 1000))).
  exists [[]; U "abc"]. split; [|reflexivity].
  repeat constructor.
Defined.

(** C6 as stated fails: when the top half of a split page falls back to
    the empty string, the raw text of the page begins with the newline
    that separates the chunks. *)
Lemma page_text_not_trimmed_counterexample :
  ¬ (∀ (service : image → Z → outcome response) img raw,
       (ocr_page service img 3).2 = Returned raw → trimmed raw).
Proof.
  intros H.
  destruct (H bottom_only (Raster 1 600 1000) (NL ++ U "abc")) as [Hhead _];
    [by vm_compute|].
  by specialize (Hhead 10%N eq_refl).
Qed.

(** ** Sorting by key *)

Section sort_by_key.
Context {A : Type} (key : A → Z).

Lemma insert_by_key_perm x l : insert_by_key key x l ≡ₚ x :: l.
Proof.
  induction l as [|y l IH]; [done|]. cbn.
  destruct (key x <=? key y); [done|]. rewrite IH. apply Permutation_swap.
Qed.

Lemma sort_by_key_perm l : sort_by_key key l ≡ₚ l.
Proof.
  induction l as [|x l IH]; [done|]. cbn.
  by rewrite insert_by_key_perm, IH.
Qed.

Lemma insert_by_key_sorted x l :
  StronglySorted (λ a b, key a ≤ key b) l →
  StronglySorted (λ a b, key a ≤ key b) (insert_by_key key x l).
Proof.
  induction 1 as [|y l Hl IH Hy]; cbn; [by repeat constructor|].
  destruct (Z.leb_spec (key x) (key y)) as [Hle|Hgt].
  - constructor; [by constructor|]. constructor; [done|].
    eapply Forall_impl; [done|]. cbn. lia.
  - constructor; [done|]. rewrite insert_by_key_perm.
    constructor; [lia | done].
Qed.

Lemma sort_by_key_sorted l :
  StronglySorted (λ a b, key a ≤ key b) (sort_by_key key l).
Proof.
  induction l as [|x l IH]; cbn; [constructor|].
  by apply insert_by_key_sorted.
Qed.

(** The sort is stable: elements already in order stay as they are. *)
Lemma sort_by_key_id l :
  StronglySorted (λ a b, key a ≤ key b) l → sort_by_key key l = l.
Proof.
  induction 1 as [|x l Hl IH Hx]; [done|]. cbn. unfold sort_by_key in IH.
  rewrite IH. destruct Hx as [|y l Hy _]; [done|]. cbn.
  by rewrite (proj2 (Z.leb_le _ _) Hy).
Qed.

(** Whatever the order in which they arrive, elements with distinct keys
    leave the sort in ascending key order. *)
Lemma sort_by_key_restores l l0 :
  l ≡ₚ l0 → StronglySorted (λ a b, key a < key b) l0 →
  sort_by_key key l = l0.
Proof.
  intros Hperm Hl0.
  assert (∀ x y, x ∈ l0 → y ∈ l0 → key x = key y → x = y) as Hinj.
  { clear Hperm. induction Hl0 as [|z l0 Hl0 IH Hz]; intros x y Hx Hy Hk;
      [by apply elem_of_nil in Hx|].
    rewrite Forall_forall in Hz.
    apply elem_of_cons in Hx as [->|Hx]; apply elem_of_cons in Hy as [->|Hy];
      [done| | |by apply IH].
    - apply Hz in Hy. lia.
    - apply Hz in Hx. lia. }
  apply (StronglySorted_unique_strong (λ a b, key a ≤ key b)).
  - intros x y Hx Hy ??. apply Hinj; [|done|lia].
    by rewrite <- Hperm, <- (sort_by_key_perm l).
  - apply sort_by_key_sorted.
  - clear Hperm Hinj. induction Hl0 as [|z l0 Hl0 IH Hz]; constructor; [done|].
    eapply Forall_impl; [done|]. cbn. lia.
  - by rewrite sort_by_key_perm.
Qed.

End sort_by_key.

(** ** The scheduler: a run in which every call returns *)

Lemma expected_results_cons start_page first raw raws :
  expected_results start_page first (raw :: raws)
  = (first, page_label start_page first, raw)
      :: expected_results start_page (first + 1) raws.
Proof.
  unfold expected_results. rewrite imap_cons. f_equal.
  - by rewrite Z.add_0_r.
  - apply imap_ext. intros i x _. cbn.
    by replace (first + Z.of_nat (S i)) with (first + 1 + Z.of_nat i) by lia.
Qed.

Lemma page_blocks_cons start_page first t texts :
  page_blocks start_page first (t :: texts)
  = block (page_label start_page first) t
      :: page_blocks start_page (first + 1) texts.
Proof.
  unfold page_blocks. rewrite imap_cons. f_equal.
  - by rewrite Z.add_0_r.
  - apply imap_ext. intros i x _. cbn.
    by replace (first + Z.of_nat (S i)) with (first + 1 + Z.of_nat i) by lia.
Qed.

Lemma page_blocks_app start_page first texts1 texts2 :
  page_blocks start_page first (texts1 ++ texts2)
  = page_blocks start_page first texts1
      ++ page_blocks start_page (first + Z.of_nat (length texts1)) texts2.
Proof.
  unfold page_blocks. rewrite imap_app. f_equal.
  apply imap_ext. intros i x _. cbn. do 2 f_equal. lia.
Qed.

Lemma expected_results_keys start_page first raws :
  Forall (λ r : page_tuple, first ≤ r.1.1)
    (expected_results start_page first raws).
Proof.
  apply Forall_forall. intros r Hr.
  apply elem_of_lookup_imap in Hr as (i & raw & -> & _). cbn. lia.
Qed.

Lemma expected_results_sorted start_page first raws :
  StronglySorted (λ a b : page_tuple, a.1.1 < b.1.1)
    (expected_results start_page first raws).
Proof.
  revert first. induction raws as [|raw raws IH]; intros first;
    [constructor|].
  rewrite expected_results_cons. constructor; [apply IH|].
  eapply Forall_impl; [apply expected_results_keys|]. cbn. lia.
Qed.

Section tasks.
Context (ocr_service : image → Z → outcome response).
Context (start_page total_pages : Z).

Lemma ocr_task_outcome idx page raw :
  (ocr_page ocr_service page 3).2 = Returned raw →
  (_ocr_task ocr_service start_page idx page total_pages).2
  = Returned (idx, page_label start_page idx, raw).
Proof. intros H. unfold _ocr_task. by rewrite (bind_returned _ _ raw). Qed.

Lemma submit_all_cons first page batch_pages :
  submit_all ocr_service start_page total_pages first (page :: batch_pages)
  = _ocr_task ocr_service start_page first page total_pages
      :: submit_all ocr_service start_page total_pages (first + 1) batch_pages.
Proof.
  unfold submit_all. rewrite imap_cons. f_equal.
  - by rewrite Z.add_0_r.
  - apply imap_ext. intros i x _. cbn.
    by replace (first + Z.of_nat (S i)) with (first + 1 + Z.of_nat i) by lia.
Qed.

(** When the OCR of every page of the batch returns, the tasks, in the
    order they were submitted, hold the expected tuples. *)
Lemma submit_all_values first batch_pages raws :
  Forall2 (λ page raw, (ocr_page ocr_service page 3).2 = Returned raw)
    batch_pages raws →
  Forall (λ fut, is_Some (value_of fut))
    (submit_all ocr_service start_page total_pages first batch_pages) ∧
  omap value_of
    (submit_all ocr_service start_page total_pages first batch_pages)
  = expected_results start_page first raws.
Proof.
  intros H. revert first.
  induction H as [|page raw batch_pages raws Hraw _ IH]; intros first;
    [done|].
  rewrite submit_all_cons, expected_results_cons.
  destruct (IH (first + 1)) as [IH1 IH2].
  assert (value_of (_ocr_task ocr_service start_page first page total_pages)
          = Some (first, page_label start_page first, raw)) as Hv.
  { unfold value_of. by rewrite (ocr_task_outcome _ _ raw). }
  split.
  - constructor; [by rewrite Hv | done].
  - cbn. by rewrite Hv, IH2.
Qed.

End tasks.

(** Collecting the results of tasks none of which raised. *)
Lemma collect_results {A} (futures : list (io A)) (batch_results : list A) :
  Forall (λ fut, is_Some (value_of fut)) futures →
  (for_each futures
     (λ batch_results fut, r ← result fut; mret (batch_results ++ [r]))
     batch_results).2
  = Returned (batch_results ++ omap value_of futures).
Proof.
  intros H. revert batch_results.
  induction H as [|fut futures [v Hv] _ IH]; intros batch_results.
  - cbn. by rewrite app_nil_r.
  - cbn [for_each]. unfold value_of in Hv.
    destruct (fut.2) as [v'|] eqn:Hfut; [|done]. simplify_eq.
    rewrite (bind_returned _ _ (batch_results ++ [v])).
    + rewrite IH. cbn. unfold value_of at 2. rewrite Hfut.
      by rewrite <- app_assoc.
    + rewrite (bind_returned _ _ v); done.
Qed.

(** The correction loop over the tuples of a batch, when every correction
    returns a string. *)
Lemma correction_loop corr_service mode start_page first raws corrs
    raw_pages corr_pages :
  (two_pass mode = true →
   Forall2 (λ raw c, (correct_text corr_service raw 3).2 = Returned (Some c))
     raws corrs) →
  (for_each (expected_results start_page first raws)
     (correct_and_append corr_service mode) (raw_pages, corr_pages)).2
  = Returned (raw_pages ++ page_blocks start_page first raws,
              if two_pass mode
              then corr_pages ++ page_blocks start_page first corrs
              else corr_pages).
Proof.
  revert first corrs raw_pages corr_pages.
  induction raws as [|raw raws IH]; intros first corrs raw_pages corr_pages H.
  - cbn. destruct (two_pass mode) eqn:Hmode; [|by rewrite app_nil_r].
    apply Forall2_nil_inv_l in H as ->; [|done]. by rewrite !app_nil_r.
  - rewrite expected_results_cons, page_blocks_cons. cbn [for_each].
    unfold correct_and_append at 2.
    destruct (two_pass mode) eqn:Hmode.
    + specialize (H eq_refl).
      apply Forall2_cons_inv_l in H as (c & corrs' & Hc & H & ->).
      rewrite page_blocks_cons.
      rewrite (bind_returned _ _
                 (raw_pages ++ [block (page_label start_page first) raw],
                  corr_pages ++ [block (page_label start_page first) c])).
      * rewrite (IH _ corrs') by done.
        by rewrite <- !app_assoc.
      * by rewrite (bind_returned _ _ (Some c)).
    + rewrite (bind_returned _ _
                 (raw_pages ++ [block (page_label start_page first) raw],
                  corr_pages)).
      * rewrite (IH _ []) by done.
        by rewrite <- !app_assoc.
      * by rewrite bind_ret.
Qed.

Section successful_run.
Context (sched : Z → list (io page_tuple) → list (io page_tuple)).
Context (Hsched : ∀ batch_start futures, sched batch_start futures ≡ₚ futures).
Context (ocr_service : image → Z → outcome response).
Context (corr_service : str → Z → outcome response).
Context (pdf_path : pdf) (start_page : Z) (mode : str) (batch_size : Z).
Context (raws corrs : list str).
Context (Hcount : page_count pdf_path = Z.of_nat (length (pages pdf_path))).
Context (Hsize : 1 ≤ batch_size).
Context (Hocr :
  Forall2 (λ page raw, (ocr_page ocr_service page 3).2 = Returned raw)
    (pages pdf_path) raws).
Context (Hcorr :
  two_pass mode = true →
  Forall2 (λ raw c, (correct_text corr_service raw 3).2 = Returned (Some c))
    raws corrs).

Local Abbreviation N := (length (pages pdf_path)).

(** The pages a batch holds that starts after [k] pages. *)
Local Abbreviation batch_len k :=
  (Z.to_nat (batch_end (page_count pdf_path) batch_size (1 + Z.of_nat k)
             - (1 + Z.of_nat k) + 1)).

Lemma process_batch_outcome (k : nat) raw_pages corr_pages :
  (process_batch sched ocr_service corr_service pdf_path start_page mode
     batch_size (page_count pdf_path) (raw_pages, corr_pages)
     (1 + Z.of_nat k)).2
  = Returned
      (raw_pages ++ page_blocks start_page (1 + Z.of_nat k)
                      (take (batch_len k) (drop k raws)),
       if two_pass mode
       then corr_pages ++ page_blocks start_page (1 + Z.of_nat k)
                            (take (batch_len k) (drop k corrs))
       else corr_pages).
Proof.
  unfold process_batch.
  set (e := batch_end (page_count pdf_path) batch_size (1 + Z.of_nat k)).
  set (m := Z.to_nat (e - (1 + Z.of_nat k) + 1)).
  rewrite (bind_returned _ _ (take m (drop k (pages pdf_path)))).
  2: { unfold convert_from_path. rewrite bind_emit. cbn [snd mret io_ret].
       rewrite Z.max_r by lia. do 2 f_equal. f_equal. lia. }
  rewrite bind_emit. cbn [snd].
  pose proof (submit_all_values ocr_service start_page (page_count pdf_path)
                (1 + Z.of_nat k) (take m (drop k (pages pdf_path)))
                (take m (drop k raws))) as [Hall Hvalues].
  { by apply Forall2_take, Forall2_drop. }
  set (futures := submit_all ocr_service start_page (page_count pdf_path)
                    (1 + Z.of_nat k) (take m (drop k (pages pdf_path))))
    in *.
  rewrite (bind_returned _ _ (omap value_of (sched (1 + Z.of_nat k) futures))).
  2: { rewrite collect_results; [done|]. by rewrite Hsched. }
  rewrite (sort_by_key_restores _ _
             (expected_results start_page (1 + Z.of_nat k)
                (take m (drop k raws)))).
  - apply correction_loop. intros Hmode.
    by apply Forall2_take, Forall2_drop, Hcorr.
  - by rewrite Hsched, Hvalues.
  - apply expected_results_sorted.
Qed.

Lemma batch_loop_outcome (n k : nat) raw_pages corr_pages :
  (k ≤ N)%nat → (N - k ≤ n)%nat →
  (for_each
     (range_items (1 + Z.of_nat k) (page_count pdf_path + 1) batch_size)
     (process_batch sched ocr_service corr_service pdf_path start_page mode
        batch_size (page_count pdf_path)) (raw_pages, corr_pages)).2
  = Returned
      (raw_pages ++ page_blocks start_page (1 + Z.of_nat k) (drop k raws),
       if two_pass mode
       then corr_pages ++ page_blocks start_page (1 + Z.of_nat k)
                            (drop k corrs)
       else corr_pages).
Proof.
  pose proof (Forall2_length _ _ _ Hocr) as Hraws.
  assert (two_pass mode = true → length corrs = N) as Hcorrs.
  { intros Hmode. rewrite <- (Forall2_length _ _ _ (Hcorr Hmode)). done. }
  revert k raw_pages corr_pages.
  induction n as [|n IH]; intros k raw_pages corr_pages Hk Hn.
  - rewrite range_items_done by lia. cbn.
    rewrite (drop_ge raws) by lia. rewrite app_nil_r.
    destruct (two_pass mode); [|done].
    rewrite (drop_ge corrs) by (rewrite Hcorrs by done; lia).
    by rewrite app_nil_r.
  - destruct (decide (k = N)) as [->|Hne].
    { rewrite range_items_done by lia. cbn.
      rewrite (drop_ge raws) by lia. rewrite app_nil_r.
      destruct (two_pass mode); [|done].
      rewrite (drop_ge corrs) by (rewrite Hcorrs by done; lia).
      by rewrite app_nil_r. }
    rewrite range_items_step by lia. cbn [for_each].
    rewrite (bind_returned _ _ _
               (process_batch_outcome k raw_pages corr_pages)).
    unfold batch_end. rewrite Hcount.
    destruct (decide (Z.of_nat k + batch_size ≤ Z.of_nat N)) as [Hle|Hgt].
    + rewrite Z.min_l by lia.
      assert (Z.to_nat (1 + Z.of_nat k + batch_size - 1 - (1 + Z.of_nat k) + 1)
              = Z.to_nat batch_size) as -> by lia.
      assert (1 + Z.of_nat k + batch_size
              = 1 + Z.of_nat (k + Z.to_nat batch_size)) as -> by lia.
      rewrite <- Hcount. rewrite IH by lia.
      assert (∀ l : list str, (k + Z.to_nat batch_size ≤ length l)%nat →
                page_blocks start_page (1 + Z.of_nat k)
                  (take (Z.to_nat batch_size) (drop k l))
                ++ page_blocks start_page
                     (1 + Z.of_nat (k + Z.to_nat batch_size))
                     (drop (k + Z.to_nat batch_size) l)
                = page_blocks start_page (1 + Z.of_nat k) (drop k l)) as Hglue.
      { intros l Hl. rewrite <- (drop_drop l (Z.to_nat batch_size) k).
        trans (page_blocks start_page (1 + Z.of_nat k)
                 (take (Z.to_nat batch_size) (drop k l)
                  ++ drop (Z.to_nat batch_size) (drop k l)));
          [|by rewrite take_drop].
        rewrite page_blocks_app, length_take_le
          by (rewrite length_drop; lia).
        do 2 f_equal. lia. }
      destruct (two_pass mode).
      * rewrite <- !app_assoc. rewrite (Hglue raws) by lia.
        by rewrite (Hglue corrs) by (rewrite Hcorrs by done; lia).
      * rewrite <- !app_assoc. by rewrite (Hglue raws) by lia.
    + rewrite Z.min_r by lia. rewrite <- Hcount.
      rewrite range_items_done by lia. cbn [for_each mret io_ret snd].
      rewrite (take_ge (drop k raws)) by (rewrite length_drop; lia).
      destruct (two_pass mode); [|done].
      by rewrite (take_ge (drop k corrs))
        by (rewrite length_drop, Hcorrs by done; lia).
Qed.

(** A run on a PDF with pages in which every call returns: the documents
    hold the block of every page, in ascending page order. *)
Lemma run_pipeline_outcome key :
  key ≠ [] → (1 ≤ N)%nat →
  (run_pipeline sched (Some key) ocr_service corr_service pdf_path start_page
     mode batch_size).2
  = Returned
      (if two_pass mode
       then RawAndCorrected (join (NL ++ NL) (page_blocks start_page 1 raws))
              (join (NL ++ NL) (page_blocks start_page 1 corrs))
       else RawOnly (join (NL ++ NL) (page_blocks start_page 1 raws))).
Proof.
  intros Hkey HN. unfold run_pipeline.
  destruct (Z.eqb_spec (page_count pdf_path) 0) as [H0|_]; [lia|].
  assert (∀ k, (build_model (Some key) k).2 = Returned ()) as Hbuild.
  { intros k. unfold build_model. by destruct key. }
  rewrite (bind_returned _ _ ()) by apply Hbuild.
  rewrite (bind_returned _ _ ())
    by (destruct (two_pass mode); [apply Hbuild|done]).
  unfold py_range. destruct (Z.eqb_spec batch_size 0) as [|_]; [lia|].
  rewrite (bind_returned _ _
             (range_items 1 (page_count pdf_path + 1) batch_size)) by done.
  pose proof (batch_loop_outcome N 0 [] []) as Hloop.
  change (1 + Z.of_nat 0) with 1 in Hloop. rewrite !drop_0 in Hloop.
  rewrite (bind_returned _ _ _ (Hloop ltac:(lia) ltac:(lia))).
  rewrite bind_emit. cbn [snd].
  destruct (two_pass mode); [|done].
  by rewrite bind_emit.
Qed.

End successful_run.

(** A two-pass run in which no correction call finds a candidate: every
    corrected block falls back to the raw text, and the two documents are
    the same. *)
Lemma fallback_run_documents_agree sched ocr_service corr_service pdf_path
    start_page batch_size raws key :
  (∀ batch_start futures, sched batch_start futures ≡ₚ futures) →
  page_count pdf_path = Z.of_nat (length (pages pdf_path)) →
  (1 ≤ length (pages pdf_path))%nat → 1 ≤ batch_size → key ≠ [] →
  Forall2 (λ page raw, (ocr_page ocr_service page 3).2 = Returned raw)
    (pages pdf_path) raws →
  (∀ raw k, ∃ r, corr_service raw k = Returned r ∧ candidates r = []) →
  (run_pipeline sched (Some key) ocr_service corr_service pdf_path start_page
     (U "two-pass") batch_size).2
  = Returned
      (RawAndCorrected (join (NL ++ NL) (page_blocks start_page 1 raws))
         (join (NL ++ NL) (page_blocks start_page 1 raws))).
Proof.
  intros Hsched Hcount Hpages Hsize Hkey Hocr Hempty.
  apply (run_pipeline_outcome sched Hsched ocr_service corr_service pdf_path
           start_page (U "two-pass") batch_size raws raws);
    [done..| |done|done].
  intros _. clear Hocr. induction raws as [|raw raws IH]; constructor; [|done].
  unfold correct_text.
  pose proof (correct_attempts_all_empty 3 (corr_service raw) raw 3
                (Hempty raw)) as H.
  change (remaining 3 3) with (seqZ 0 3) in H. by rewrite H.
Qed.

Lemma expected_results_indices start_page first raws :
  (λ r : page_tuple, r.1.1) <$> expected_results start_page first raws
  = seqZ first (Z.of_nat (length raws)).
Proof.
  revert first. induction raws as [|raw raws IH]; intros first; [done|].
  rewrite expected_results_cons, fmap_cons, IH.
  cbn [length]. rewrite seqZ_succ. done.
Qed.

(** C1: whatever the order in which the pool completes the OCR tasks of a
    batch, the results are sorted back into ascending page index before
    they are corrected and appended, so that the documents hold the blocks
    of the pages 1, 2, .. in this order. *)
Theorem document_in_page_order
    (sched : Z → list (io page_tuple) → list (io page_tuple))
    (ocr_service : image → Z → outcome response)
    (corr_service : str → Z → outcome response)
    (pdf_path : pdf) (start_page : Z) (mode : str) (batch_size : Z)
    (raws corrs : list str) :
  (∀ batch_start futures, sched batch_start futures ≡ₚ futures) →
  page_count pdf_path = Z.of_nat (length (pages pdf_path)) →
  (1 ≤ length (pages pdf_path))%nat →
  1 ≤ batch_size →
  Forall2 (λ page raw, (ocr_page ocr_service page 3).2 = Returned raw)
    (pages pdf_path) raws →
  (two_pass mode = true →
   Forall2 (λ raw c, (correct_text corr_service raw 3).2 = Returned (Some c))
     raws corrs) →
  (* a batch: any completion order is sorted back into page order *)
  (∀ first texts completed,
     completed ≡ₚ expected_results start_page first texts →
     sort_by_key (λ r : page_tuple, r.1.1) completed
     = expected_results start_page first texts ∧
     (λ r : page_tuple, r.1.1)
       <$> sort_by_key (λ r : page_tuple, r.1.1) completed
     = seqZ first (Z.of_nat (length texts))) ∧
  (* the run: block i of each document is the block of page i *)
  ∀ api_key, api_key ≠ [] →
    (run_pipeline sched (Some api_key) ocr_service corr_service pdf_path
       start_page mode batch_size).2
    = Returned
        (if two_pass mode
         then RawAndCorrected
                (join (NL ++ NL) (page_blocks start_page 1 raws))
                (join (NL ++ NL) (page_blocks start_page 1 corrs))
         else RawOnly (join (NL ++ NL) (page_blocks start_page 1 raws))).
Proof.
  intros Hsched Hcount Hpages Hsize Hocr Hcorr. split.
  - intros first texts completed Hperm.
    rewrite (sort_by_key_restores _ _ _ Hperm)
      by apply expected_results_sorted.
    split; [done | apply expected_results_indices].
  - intros api_key Hkey. by eapply run_pipeline_outcome.
Qed.

Lemma document_in_page_order_witness :
  (run_pipeline last_first (Some (U "key")) sample_ocr always_empty sample_pdf
     2 (U "two-pass") 2).2
  = Returned
      (RawAndCorrected
         (join (NL ++ NL)
            (page_blocks 2 1 [U "text of page 1"; U "text of page 2";
                              U "text of page 3"]))
         (join (NL ++ NL)
            (page_blocks 2 1 [U "text of page 1"; U "text of page 2";
                              U "text of page 3"]))).
Proof.
  refine (proj2 (document_in_page_order last_first sample_ocr always_empty
                   sample_pdf 2 (U "two-pass") 2
                   [U "text of page 1"; U "text of page 2"; U "text of page 3"]
                   [U "text of page 1"; U "text of page 2"; U "text of page 3"]
                   _ _ _ _ _ _) (U "key") _).
  - intros b l. apply reverse_Permutation.
  - vm_compute. reflexivity.
  - vm_compute. lia.
  - lia.
  - repeat constructor.
  - intros _. repeat constructor.
  - discriminate.
Defined.

(** The pages 5, 3, 4 of one batch, in each of the six orders in which they
    may complete, leave the sort as 3, 4, 5. *)
Example completion_orders_345 (t3 t4 t5 : list N) :
  let r idx t : page_tuple := (idx, page_label 1 idx, t) in
  Forall (λ completed,
            sort_by_key (λ r : page_tuple, r.1.1) completed
            = [r 3 t3; r 4 t4; r 5 t5])
    [[r 5 t5; r 3 t3; r 4 t4]; [r 5 t5; r 4 t4; r 3 t3];
     [r 3 t3; r 5 t5; r 4 t4]; [r 3 t3; r 4 t4; r 5 t5];
     [r 4 t4; r 3 t3; r 5 t5]; [r 4 t4; r 5 t5; r 3 t3]].
Proof. repeat constructor. Qed.

(** ** No pages *)

(** C9: when the page counter reports 0 pages the run ends at once with no
    document: no model is made, no OCR or correction call, no rendering and
    no file written. *)
Theorem no_pages_no_output
    (sched : Z → list (io page_tuple) → list (io page_tuple))
    (api_key : option str)
    (ocr_service : image → Z → outcome response)
    (corr_service : str → Z → outcome response)
    (pdf_path : pdf) (start_page : Z) (mode : str) (batch_size : Z) :
  page_count pdf_path = 0 →
  run_pipeline sched api_key ocr_service corr_service pdf_path start_page
    mode batch_size
  = ([], Returned NoResult).
Proof. intros H. unfold run_pipeline. by rewrite H. Qed.

Lemma no_pages_no_output_witness :
  run_pipeline last_first None sample_ocr always_empty empty_pdf 1
    (U "two-pass") 10
  = ([], Returned NoResult).
Proof. apply no_pages_no_output. vm_compute. reflexivity. Defined.

(** ** Corrected text *)

Lemma two_pass_iff mode : two_pass mode = true ↔ mode = U "two-pass".
Proof. unfold two_pass. apply bool_decide_eq_true. Qed.



(** ** Page labels *)

Example of_int_samples :
  of_int 0 = U "0" ∧ of_int 12 = U "12" ∧ of_int (-7) = U "-7"
  ∧ of_int 1024 = U "1024".
Proof. by vm_compute. Qed.

(** C8: for [page_index >= 1] and [start_page >= 1] the label is
    ["Page {page_index - start_page + 1}"] when that number is at least 1 and
    ["[Front Matter p.{page_index}]"] otherwise; with [start_page = 6], page
    3 is ["[Front Matter p.3]"], page 6 is ["Page 1"] and page 10 is
    ["Page 5"]. *)
Theorem page_label_spec (start_page page_index : Z) :
  1 ≤ page_index → 1 ≤ start_page →
  (1 ≤ page_index - start_page + 1 →
     page_label start_page page_index
     = U "Page " ++ of_int (page_index - start_page + 1)) ∧
  (page_index - start_page + 1 < 1 →
     page_label start_page page_index
     = U "[Front Matter p." ++ of_int page_index ++ U "]") ∧
  page_label 6 3 = U "[Front Matter p.3]" ∧
  page_label 6 6 = U "Page 1" ∧
  page_label 6 10 = U "Page 5".
Proof.
  intros _ _. unfold page_label. repeat split; try reflexivity.
  - intros H. by rewrite (proj2 (Z.leb_le _ _) H).
  - intros H. by rewrite (proj2 (Z.leb_gt _ _) H).
Qed.

Lemma page_label_spec_witness :
  page_label 6 10 = U "Page " ++ of_int (10 - 6 + 1).
Proof.
  apply (page_label_spec 6 10); lia.
Defined.

(** * Further properties of the code *)

(** ** Traces of compound computations *)

Lemma bind_trace {A B} (m : io A) (f : A → io B) :
  (m ≫= f).1
  = match m.2 with Returned a => m.1 ++ (f a).1 | Raised _ => m.1 end.
Proof. unfold mbind, io_bind. by destruct (m.2). Qed.

Lemma bind_trace_Forall {A B} (P : event → Prop) (m : io A) (f : A → io B) :
  Forall P m.1 → (∀ a, Forall P (f a).1) → Forall P (m ≫= f).1.
Proof.
  intros Hm Hf. rewrite bind_trace. destruct (m.2); [|done].
  apply Forall_app. auto.
Qed.

Lemma for_each_trace_Forall {A S} (P : event → Prop) (l : list A)
    (body : S → A → io S) s :
  (∀ s x, Forall P (body s x).1) → Forall P (for_each l body s).1.
Proof.
  intros Hbody. revert s. induction l as [|x l IH]; intros s; [constructor|].
  cbn [for_each]. by apply bind_trace_Forall.
Qed.

Lemma invocations_app t1 t2 :
  invocations (t1 ++ t2) = (invocations t1 + invocations t2)%nat.
Proof. unfold invocations. by rewrite fmap_app, sum_list_with_app. Qed.

(** ** The retry loops, whatever the model answers *)

Section retry_shape.
Context (max_retries : Z).

Lemma retry_trace_grow req a (m n : nat) t :
  (1 ≤ m ≤ n)%nat → t = retry_trace req (a + 1) m →
  ∃ m', (1 ≤ m' ≤ S n)%nat ∧
        req :: EvSleep (backoff a) :: t = retry_trace req a m'.
Proof.
  intros Hm ->. exists (S m). split; [lia|].
  destruct m as [|m]; [lia|]. by rewrite retry_trace_SS.
Qed.

Lemma ocr_attempts_shape service chunk (n : nat) :
  n ≠ O →
  ∃ m, (1 ≤ m ≤ n)%nat ∧
       (ocr_attempts service chunk max_retries (remaining max_retries n)).1
       = retry_trace (EvOcrRequest chunk) (max_retries - Z.of_nat n) m.
Proof.
  induction n as [|n IH]; [done|]. intros _.
  rewrite remaining_succ. cbn [ocr_attempts].
  rewrite (more_attempts _ _ n) by done. rewrite bind_emit. cbn [fst].
  set (a := max_retries - Z.of_nat (S n)).
  set (req := EvOcrRequest chunk).
  assert (∀ last : io (option str), last.1 = [] →
            ∃ m, (1 ≤ m ≤ S n)%nat ∧
                 req :: (if bool_decide (n ≠ O)
                         then emit (EvSleep (backoff a));;
                              ocr_attempts service chunk max_retries
                                (remaining max_retries n)
                         else last).1
                 = retry_trace req a m) as Hretry.
  { intros last Hlast. case_bool_decide as Hn.
    - rewrite bind_emit. cbn [fst]. destruct (IH Hn) as (m & Hm & Ht).
      eapply retry_trace_grow; [done|]. rewrite Ht. f_equal. lia.
    - rewrite Hlast. exists 1%nat. split; [lia | done]. }
  assert (∃ m, (1 ≤ m ≤ S n)%nat ∧ [req] = retry_trace req a m) as Hone
    by (exists 1%nat; split; [lia | done]).
  destruct (service a) as [r|e].
  - destruct (candidates r); [by apply Hretry | done].
  - destruct (decide _); [by apply Hretry|].
    destruct (except_Exception e); [|done].
    destruct (is_timeout e); [by apply Hretry | done].
Qed.

Lemma correct_attempts_shape service raw (n : nat) :
  n ≠ O →
  ∃ m, (1 ≤ m ≤ n)%nat ∧
       (correct_attempts service raw max_retries (remaining max_retries n)).1
       = retry_trace (EvCorrRequest raw) (max_retries - Z.of_nat n) m.
Proof.
  induction n as [|n IH]; [done|]. intros _.
  rewrite remaining_succ. cbn [correct_attempts].
  rewrite (more_attempts _ _ n) by done. rewrite bind_emit. cbn [fst].
  set (a := max_retries - Z.of_nat (S n)).
  set (req := EvCorrRequest raw).
  assert (∀ last : io (option str), last.1 = [] →
            ∃ m, (1 ≤ m ≤ S n)%nat ∧
                 req :: (if bool_decide (n ≠ O)
                         then emit (EvSleep (backoff a));;
                              correct_attempts service raw max_retries
                                (remaining max_retries n)
                         else last).1
                 = retry_trace req a m) as Hretry.
  { intros last Hlast. case_bool_decide as Hn.
    - rewrite bind_emit. cbn [fst]. destruct (IH Hn) as (m & Hm & Ht).
      eapply retry_trace_grow; [done|]. rewrite Ht. f_equal. lia.
    - rewrite Hlast. exists 1%nat. split; [lia | done]. }
  assert (∃ m, (1 ≤ m ≤ S n)%nat ∧ [req] = retry_trace req a m) as Hone
    by (exists 1%nat; split; [lia | done]).
  destruct (service a) as [r|e].
  - destruct (candidates r); [by apply Hretry|].
    destruct (text r) as [t|e]; [done|].
    destruct (decide _); [by apply Hretry|].
    destruct (except_Exception e); [|done].
    destruct (is_timeout e); [by apply Hretry | done].
  - destruct (decide _); [by apply Hretry|].
    destruct (except_Exception e); [|done].
    destruct (is_timeout e); [by apply Hretry | done].
Qed.

End retry_shape.

(** X1: whatever the model answers, a retry loop with [max_retries >= 1]
    makes between 1 and [max_retries] calls and waits only between two
    calls: its events are a call, then for every further call a wait and
    the call, the i-th wait being of [10 * i] seconds, and nothing else.
    So there is one wait less than calls, and no wait after the last
    call. *)
Theorem retry_loops_alternate (service : Z → outcome response)
    (chunk : image) (raw : str) (max_retries : Z) :
  1 ≤ max_retries →
  let t_ocr :=
    (ocr_attempts service chunk max_retries (seqZ 0 max_retries)).1 in
  let t_corr := (correct_text (λ _, service) raw max_retries).1 in
  (1 ≤ invocations t_ocr ≤ Z.to_nat max_retries)%nat ∧
  t_ocr = retry_trace (EvOcrRequest chunk) 0 (invocations t_ocr) ∧
  sleeps t_ocr = backoff <$> seqZ 0 (Z.of_nat (invocations t_ocr) - 1) ∧
  last t_ocr = Some (EvOcrRequest chunk) ∧
  (1 ≤ invocations t_corr ≤ Z.to_nat max_retries)%nat ∧
  t_corr = retry_trace (EvCorrRequest raw) 0 (invocations t_corr) ∧
  sleeps t_corr = backoff <$> seqZ 0 (Z.of_nat (invocations t_corr) - 1) ∧
  last t_corr = Some (EvCorrRequest raw).
Proof.
  intros Hmax. cbn zeta. unfold correct_text.
  rewrite <- (remaining_all max_retries) by lia.
  destruct (ocr_attempts_shape max_retries service chunk
              (Z.to_nat max_retries)) as (m1 & Hm1 & ->); [lia|].
  destruct (correct_attempts_shape max_retries service raw
              (Z.to_nat max_retries)) as (m2 & Hm2 & ->); [lia|].
  rewrite !retry_trace_invocations, !retry_trace_sleeps by done.
  replace (max_retries - Z.of_nat (Z.to_nat max_retries)) with 0 by lia.
  split_and!; try done; try lia; apply retry_trace_last; lia.
Qed.

Lemma retry_loops_alternate_witness :
  (ocr_attempts (always_empty ()) (Raster 1 600 700) 3 (seqZ 0 3)).1
  = retry_trace (EvOcrRequest (Raster 1 600 700)) 0
      (invocations
         (ocr_attempts (always_empty ()) (Raster 1 600 700) 3 (seqZ 0 3)).1).
Proof.
  refine (proj1 (proj2 (retry_loops_alternate (always_empty ())
                          (Raster 1 600 700) (U "raw") 3 _))).
  lia.
Defined.

(** Three calls, with the two waits between them. *)
Example retry_trace_3 (req : event) :
  retry_trace req 0 3 = [req; EvSleep 10; req; EvSleep 20; req].
Proof. reflexivity. Qed.

(** ** Recovery after retries *)

Section retry_recovery.
Context (max_retries : Z).

Lemma ocr_attempts_recover service chunk r c cs (k n : nat) :
  (k < n)%nat →
  (∀ j : nat, (j < k)%nat →
     retried_by_ocr (service (max_retries - Z.of_nat n + Z.of_nat j))) →
  service (max_retries - Z.of_nat n + Z.of_nat k) = Returned r →
  candidates r = c :: cs →
  ocr_attempts service chunk max_retries (remaining max_retries n)
  = (retry_trace (EvOcrRequest chunk) (max_retries - Z.of_nat n) (S k),
     Returned (Some (strip (concat (default [] <$> parts c))))).
Proof.
  revert n. induction k as [|k IH]; intros n Hk Hretried Hr Hc.
  - destruct n as [|n]; [lia|]. rewrite remaining_succ. cbn [ocr_attempts].
    rewrite Z.add_0_r in Hr. by rewrite Hr, Hc.
  - destruct n as [|n]; [lia|]. rewrite remaining_succ. cbn [ocr_attempts].
    rewrite (more_attempts _ _ n) by done.
    rewrite bool_decide_true by lia.
    pose proof (Hretried O ltac:(lia)) as H0. rewrite Z.add_0_r in H0.
    assert ((emit (EvSleep (backoff (max_retries - Z.of_nat (S n))));;
             ocr_attempts service chunk max_retries (remaining max_retries n))
            = (EvSleep (backoff (max_retries - Z.of_nat (S n)))
                 :: retry_trace (EvOcrRequest chunk)
                      (max_retries - Z.of_nat (S n) + 1) (S k),
               Returned (Some (strip (concat (default [] <$> parts c))))))
      as Hnext.
    { rewrite bind_emit, (IH n); [| lia | | | done].
      - cbn [fst snd]. do 3 f_equal. lia.
      - intros j Hj. specialize (Hretried (S j) ltac:(lia)).
        by replace (max_retries - Z.of_nat n + Z.of_nat j)
          with (max_retries - Z.of_nat (S n) + Z.of_nat (S j)) by lia.
      - by replace (max_retries - Z.of_nat n + Z.of_nat k)
          with (max_retries - Z.of_nat (S n) + Z.of_nat (S k)) by lia. }
    rewrite retry_trace_SS.
    destruct (service (max_retries - Z.of_nat (S n))) as [r0|e]; cbn in H0.
    + rewrite H0. by rewrite bind_emit, Hnext.
    + destruct (decide _); [by rewrite bind_emit, Hnext|].
      destruct H0 as [? | [-> ->]]; [done|]. by rewrite bind_emit, Hnext.
Qed.

Lemma correct_attempts_recover service raw r c cs t (k n : nat) :
  (k < n)%nat →
  (∀ j : nat, (j < k)%nat →
     retried_by_correct (service (max_retries - Z.of_nat n + Z.of_nat j))) →
  service (max_retries - Z.of_nat n + Z.of_nat k) = Returned r →
  candidates r = c :: cs → text r = Returned t →
  correct_attempts service raw max_retries (remaining max_retries n)
  = (retry_trace (EvCorrRequest raw) (max_retries - Z.of_nat n) (S k),
     Returned (Some (strip t))).
Proof.
  revert n. induction k as [|k IH]; intros n Hk Hretried Hr Hc Ht.
  - destruct n as [|n]; [lia|]. rewrite remaining_succ.
    cbn [correct_attempts]. rewrite Z.add_0_r in Hr. by rewrite Hr, Hc, Ht.
  - destruct n as [|n]; [lia|]. rewrite remaining_succ.
    cbn [correct_attempts].
    rewrite (more_attempts _ _ n) by done.
    rewrite bool_decide_true by lia.
    pose proof (Hretried O ltac:(lia)) as H0. rewrite Z.add_0_r in H0.
    assert ((emit (EvSleep (backoff (max_retries - Z.of_nat (S n))));;
             correct_attempts service raw max_retries
               (remaining max_retries n))
            = (EvSleep (backoff (max_retries - Z.of_nat (S n)))
                 :: retry_trace (EvCorrRequest raw)
                      (max_retries - Z.of_nat (S n) + 1) (S k),
               Returned (Some (strip t)))) as Hnext.
    { rewrite bind_emit, (IH n); [| lia | | | done | done].
      - cbn [fst snd]. do 3 f_equal. lia.
      - intros j Hj. specialize (Hretried (S j) ltac:(lia)).
        by replace (max_retries - Z.of_nat n + Z.of_nat j)
          with (max_retries - Z.of_nat (S n) + Z.of_nat (S j)) by lia.
      - by replace (max_retries - Z.of_nat n + Z.of_nat k)
          with (max_retries - Z.of_nat (S n) + Z.of_nat (S k)) by lia. }
    rewrite retry_trace_SS.
    assert (∀ e, exn_cls e = IndexError ∨ exn_cls e = AttributeError
                 ∨ caught_timeout e →
              (if decide (exn_cls e = IndexError ∨ exn_cls e = AttributeError)
               then (emit (EvSleep (backoff (max_retries - Z.of_nat (S n))));;
                     correct_attempts service raw max_retries
                       (remaining max_retries n))
               else if except_Exception e
                    then if is_timeout e
                         then (emit (EvSleep
                                  (backoff (max_retries - Z.of_nat (S n))));;
                               correct_attempts service raw max_retries
                                 (remaining max_retries n))
                         else raise e
                    else raise e)
              = (EvSleep (backoff (max_retries - Z.of_nat (S n)))
                   :: retry_trace (EvCorrRequest raw)
                        (max_retries - Z.of_nat (S n) + 1) (S k),
                 Returned (Some (strip t)))) as Hhandler.
    { intros e He. destruct (decide _) as [|Hno]; [done|].
      destruct He as [? | [? | [-> ->]]]; [by destruct Hno; left
                                 |by destruct Hno; right | done]. }
    destruct (service (max_retries - Z.of_nat (S n))) as [r0|e]; cbn in H0.
    + destruct H0 as [-> | (e & He & Hcls)]; [by rewrite bind_emit, Hnext|].
      destruct (candidates r0); [by rewrite bind_emit, Hnext|].
      rewrite He. by rewrite bind_emit, Hhandler.
    + by rewrite bind_emit, Hhandler.
Qed.

End retry_recovery.

(** X2: an OCR chunk whose first [k] calls are retried (no candidates, an
    [IndexError], or a timeout) and whose next call, within the attempts,
    has candidates: the loop makes [k + 1] calls with the waits between them
    and appends the trimmed text of the parts of the first candidate. *)
Theorem ocr_retry_then_success (service : Z → outcome response)
    (chunk : image) (max_retries : Z) (k : nat) r c cs :
  Z.of_nat k < max_retries →
  (∀ j : nat, (j < k)%nat → retried_by_ocr (service (Z.of_nat j))) →
  service (Z.of_nat k) = Returned r → candidates r = c :: cs →
  ocr_attempts service chunk max_retries (seqZ 0 max_retries)
  = (retry_trace (EvOcrRequest chunk) 0 (S k),
     Returned (Some (strip (concat (default [] <$> parts c))))).
Proof.
  intros Hk Hretried Hr Hc.
  rewrite <- (remaining_all max_retries) by lia.
  pose proof (ocr_attempts_recover max_retries service chunk r c cs k
                (Z.to_nat max_retries)) as H.
  replace (max_retries - Z.of_nat (Z.to_nat max_retries)) with 0 in H by lia.
  apply H; [lia | done | done | done].
Qed.

(** X3: the same for the correction: after [k] retried calls (no
    candidates, an [IndexError] or [AttributeError], or a timeout) a
    response with text is returned trimmed, after [k + 1] calls. *)
Theorem correct_retry_then_success (service : str → Z → outcome response)
    (raw : str) (max_retries : Z) (k : nat) r c cs t :
  Z.of_nat k < max_retries →
  (∀ j : nat, (j < k)%nat → retried_by_correct (service raw (Z.of_nat j))) →
  service raw (Z.of_nat k) = Returned r →
  candidates r = c :: cs → text r = Returned t →
  correct_text service raw max_retries
  = (retry_trace (EvCorrRequest raw) 0 (S k), Returned (Some (strip t))).
Proof.
  intros Hk Hretried Hr Hc Ht. unfold correct_text.
  rewrite <- (remaining_all max_retries) by lia.
  pose proof (correct_attempts_recover max_retries (service raw) raw r c cs t
                k (Z.to_nat max_retries)) as H.
  replace (max_retries - Z.of_nat (Z.to_nat max_retries)) with 0 in H by lia.
  apply H; [lia | done | done | done | done].
Qed.

Lemma ocr_retry_then_success_witness :
  ocr_attempts second_try (Raster 1 600 700) 3 (seqZ 0 3)
  = ([EvOcrRequest (Raster 1 600 700); EvSleep 10;
      EvOcrRequest (Raster 1 600 700)], Returned (Some (U "abcd"))).
Proof.
  refine (ocr_retry_then_success second_try (Raster 1 600 700) 3 1
            (Response [Candidate [Some (U " abc"); None; Some (U "d ")]]
               (Returned (U " fixed ")))
            (Candidate [Some (U " abc"); None; Some (U "d ")]) [] _ _ _ _).
  - lia.
  - intros [|j] Hj; [reflexivity | lia].
  - reflexivity.
  - reflexivity.
Defined.

Lemma correct_retry_then_success_witness :
  correct_text (λ _, second_try) (U "raw") 3
  = ([EvCorrRequest (U "raw"); EvSleep 10; EvCorrRequest (U "raw")],
     Returned (Some (U "fixed"))).
Proof.
  refine (correct_retry_then_success (λ _, second_try) (U "raw") 3 1
            (Response [Candidate [Some (U " abc"); None; Some (U "d ")]]
               (Returned (U " fixed ")))
            (Candidate [Some (U " abc"); None; Some (U "d ")]) []
            (U " fixed ") _ _ _ _ _).
  - lia.
  - intros [|j] Hj; [by left | lia].
  - reflexivity.
  - reflexivity.
  - reflexivity.
Defined.

(** ** The calls of a page *)

Lemma retry_trace_events req a n :
  Forall (λ ev, ev = req ∨ ∃ s, ev = EvSleep s) (retry_trace req a n).
Proof.
  revert a. induction n as [|[|n] IH]; intros a; [constructor| |].
  - repeat constructor.
  - rewrite retry_trace_SS. constructor; [by left|].
    constructor; [right; eauto | apply IH].
Qed.

(** The calls and events of the retry loop of one chunk, for any
    [max_retries]. *)
Lemma ocr_chunk_trace service chunk max_retries :
  let t := (ocr_attempts service chunk max_retries (seqZ 0 max_retries)).1 in
  (invocations t ≤ Z.to_nat max_retries)%nat ∧
  Forall (λ ev, ev = EvOcrRequest chunk ∨ ∃ s, ev = EvSleep s) t.
Proof.
  cbn zeta. destruct (decide (1 ≤ max_retries)) as [Hmax|Hmax].
  - rewrite <- (remaining_all max_retries) by lia.
    destruct (ocr_attempts_shape max_retries service chunk
                (Z.to_nat max_retries)) as (m & Hm & ->); [lia|].
    rewrite retry_trace_invocations by done.
    split; [lia | apply retry_trace_events].
  - rewrite seqZ_nil by lia. cbn. split; [lia | constructor].
Qed.

Lemma for_each_invocations {A S} (bound : nat) (l : list A)
    (body : S → A → io S) s :
  (∀ s x, (invocations (body s x).1 ≤ bound)%nat) →
  (invocations (for_each l body s).1 ≤ length l * bound)%nat.
Proof.
  intros Hbody. revert s. induction l as [|x l IH]; intros s; [cbn; lia|].
  cbn [for_each length]. rewrite bind_trace.
  pose proof (Hbody s x). destruct ((body s x).2) as [s'|]; [|lia].
  rewrite invocations_app. pose proof (IH s'). lia.
Qed.

Lemma for_each_trace_Forall_in {A S} (P : event → Prop) (l : list A)
    (body : S → A → io S) s :
  (∀ s x, x ∈ l → Forall P (body s x).1) → Forall P (for_each l body s).1.
Proof.
  revert s. induction l as [|x l IH]; intros s Hbody; [constructor|].
  cbn [for_each]. apply bind_trace_Forall.
  - apply Hbody, elem_of_cons. by left.
  - intros s'. apply IH. intros s0 x0 Hx0. apply Hbody, elem_of_cons.
    by right.
Qed.

(** X4: whatever the model answers, the OCR of a page makes at most
    [max_retries] calls per chunk, so at most [2 * max_retries] in all, and
    its only events are requests for chunks of this page and waits. *)
Theorem ocr_page_calls (service : image → Z → outcome response) (img : image)
    (max_retries : Z) :
  let t := (ocr_page service img max_retries).1 in
  (invocations t ≤ 2 * Z.to_nat max_retries)%nat ∧
  Forall (λ ev, (∃ c, c ∈ split_vertical img ∧ ev = EvOcrRequest c)
                ∨ ∃ s, ev = EvSleep s) t.
Proof.
  cbn zeta. unfold ocr_page.
  set (body := λ (out : list str) (c : image),
         t ← ocr_attempts (service c) c max_retries (seqZ 0 max_retries);
         mret (out ++ option_list t)).
  assert (∀ out c, (body out c).1
                   = (ocr_attempts (service c) c max_retries
                        (seqZ 0 max_retries)).1) as Hbody.
  { intros out c. unfold body. rewrite bind_trace.
    destruct (_.2); [apply app_nil_r | done]. }
  assert ((for_each (split_vertical img) body [] ≫=
             λ out, mret (join NL out)).1
          = (for_each (split_vertical img) body []).1) as ->.
  { rewrite bind_trace. destruct (_.2); [apply app_nil_r | done]. }
  split.
  - pose proof (for_each_invocations (Z.to_nat max_retries)
                  (split_vertical img) body []) as Hsum.
    assert (length (split_vertical img) ≤ 2)%nat as Hlen.
    { destruct (split_vertical_chunks img) as [[c ->]|(c1 & c2 & ->)];
        cbn; lia. }
    etrans; [apply Hsum|nia].
    intros out c. rewrite Hbody. apply ocr_chunk_trace.
  - apply for_each_trace_Forall_in. intros out c Hc. rewrite Hbody.
    eapply Forall_impl; [apply ocr_chunk_trace|].
    cbn. intros ev [->|?]; [left; eauto | by right].
Qed.

(** X5: with [max_retries <= 0] no retry loop runs: the OCR of a page makes
    no call, appends nothing for any chunk and returns the empty string. *)
Theorem ocr_page_without_attempts (service : image → Z → outcome response)
    (img : image) (max_retries : Z) :
  max_retries ≤ 0 → ocr_page service img max_retries = ([], Returned []).
Proof.
  intros Hmax. unfold ocr_page. rewrite seqZ_nil by lia.
  by destruct (split_vertical_chunks img) as [[c ->]|(c1 & c2 & ->)].
Qed.

Lemma ocr_page_without_attempts_witness :
  ocr_page sample_ocr (Raster 1 600 1000) 0 = ([], Returned []).
Proof. apply ocr_page_without_attempts. lia. Defined.

(** ** The events of a batch *)

Lemma collect_trace {A} (futures : list (io A)) (batch_results : list A) :
  (for_each futures
     (λ batch_results fut, r ← result fut; mret (batch_results ++ [r]))
     batch_results).1 = [].
Proof.
  revert batch_results.
  induction futures as [|fut futures IH]; intros batch_results; [done|].
  cbn [for_each]. rewrite bind_trace.
  assert ((result fut ≫= λ r, mret (batch_results ++ [r])).1 = []) as ->.
  { rewrite bind_trace. by destruct (result fut).2. }
  destruct (_.2); [apply IH | done].
Qed.

(** When a task raised, collecting the results raises the exception of the
    first task, in completion order, that raised. *)
Lemma collect_raises {A} (completed : list (io A)) (batch_results : list A) :
  (∃ fut e, fut ∈ completed ∧ fut.2 = Raised e) →
  ∃ done_before fut e later,
    completed = done_before ++ fut :: later ∧
    Forall (λ fut, is_Some (value_of fut)) done_before ∧
    fut.2 = Raised e ∧
    (for_each completed
       (λ batch_results fut, r ← result fut; mret (batch_results ++ [r]))
       batch_results).2 = Raised e.
Proof.
  revert batch_results.
  induction completed as [|fut completed IH]; intros batch_results Hex.
  { destruct Hex as (fut & e & Hin & _). by apply elem_of_nil in Hin. }
  destruct (fut.2) as [v|e] eqn:Hfut.
  - destruct (IH (batch_results ++ [v])) as (pre & f & e & post & -> & ? & ? & Hrun).
    { destruct Hex as (f & e & Hin & He).
      apply elem_of_cons in Hin as [->|Hin]; [congruence | eauto]. }
    exists (fut :: pre), f, e, post. split_and!; [done| |done|].
    + constructor; [|done]. unfold value_of. by rewrite Hfut.
    + cbn [for_each].
      rewrite (bind_returned _ _ (batch_results ++ [v])); [done|].
      by rewrite (bind_returned _ _ v).
  - exists [], fut, e, completed. split_and!; [done|constructor|done|].
    cbn [for_each]. rewrite bind_outcome.
    by rewrite bind_outcome; cbn; rewrite Hfut.
Qed.

Lemma correct_text_events service raw :
  Forall correction_step (correct_text service raw 3).1.
Proof.
  unfold correct_text.
  destruct (correct_attempts_shape 3 (service raw) raw 3) as (m & _ & Ht);
    [done|].
  change (remaining 3 3) with (seqZ 0 3) in Ht. rewrite Ht.
  eapply Forall_impl; [apply retry_trace_events|].
  intros ev [->|?]; [left; eauto | by right].
Qed.

Lemma correct_and_append_events corr_service mode acc r :
  Forall correction_step (correct_and_append corr_service mode acc r).1 ∧
  (two_pass mode = false →
   (correct_and_append corr_service mode acc r).1 = []).
Proof.
  destruct acc as [raw_pages corr_pages], r as [[idx label] raw].
  unfold correct_and_append. destruct (two_pass mode).
  - split; [|done]. apply bind_trace_Forall; [apply correct_text_events|].
    intros; constructor.
  - split; [constructor | done].
Qed.

Lemma correction_loop_events corr_service mode results acc :
  Forall correction_step
    (for_each results (correct_and_append corr_service mode) acc).1 ∧
  (two_pass mode = false →
   (for_each results (correct_and_append corr_service mode) acc).1 = []).
Proof.
  split.
  - apply for_each_trace_Forall. intros. apply correct_and_append_events.
  - intros Hmode. revert acc.
    induction results as [|r results IH]; intros acc; [done|].
    cbn [for_each]. rewrite bind_trace.
    rewrite (proj2 (correct_and_append_events corr_service mode acc r) Hmode).
    destruct (_.2); [apply IH | done].
Qed.

(** The OCR of a page, and so the task of a page, only calls the OCR model
    and waits. *)
Lemma ocr_page_steps service img max_retries :
  Forall ocr_step (ocr_page service img max_retries).1.
Proof.
  unfold ocr_page. apply bind_trace_Forall; [|intros; constructor].
  apply for_each_trace_Forall. intros out c.
  apply bind_trace_Forall; [|intros; constructor].
  eapply Forall_impl; [apply (ocr_chunk_trace (service c) c max_retries)|].
  intros ev [-> | Hev]; [left; eauto | by right].
Qed.

Lemma submit_all_steps ocr_service start_page total_pages first batch_pages :
  Forall (Forall ocr_step)
    (fst <$> submit_all ocr_service start_page total_pages first batch_pages).
Proof.
  revert first. induction batch_pages as [|page batch_pages IH];
    intros first; [constructor|].
  rewrite submit_all_cons, fmap_cons. constructor; [|apply IH].
  unfold _ocr_task. apply bind_trace_Forall; [|intros; constructor].
  apply ocr_page_steps.
Qed.

(** A batch: the renderer is asked for the window, the tasks go to the
    pool, where they call the OCR model and wait, and what follows are
    steps of the correction loop, none in one-pass mode. *)
Lemma process_batch_trace sched ocr_service corr_service pdf_path start_page
    mode batch_size total_pages acc batch_start :
  ∃ tasks t_corr,
    (process_batch sched ocr_service corr_service pdf_path start_page mode
       batch_size total_pages acc batch_start).1
    = EvRender batch_start (batch_end total_pages batch_size batch_start)
        :: EvPool tasks :: t_corr ∧
    Forall (Forall ocr_step) tasks ∧
    Forall correction_step t_corr ∧
    (two_pass mode = false → t_corr = []).
Proof.
  unfold process_batch, convert_from_path.
  rewrite bind_emit. cbn [fst snd mret io_ret].
  rewrite bind_trace. cbn [fst snd]. rewrite bind_emit. cbn [fst app].
  eexists _, _. split; [reflexivity|]. split; [apply submit_all_steps|].
  rewrite bind_trace, collect_trace. cbn [app].
  destruct (_.2) as [batch_results|];
    [apply correction_loop_events | by split].
Qed.

(** ** The events of a run *)

(** The projections look into the pools. *)
Example projections_look_into_pools name content :
  written [EvPool [[EvSleep 10; EvWrite RAW_DIR name content]]]
  = [(RAW_DIR, name, content)] ∧
  renders [EvPool [[]; [EvRender 7 9]]] = [(7, 9)] ∧
  is_correction_event (EvPool [[EvSleep 10]; [EvConfigure CorrModel]]) = true ∧
  is_correction_event (EvPool [[EvCorrRequest content]]) = true.
Proof. done. Qed.

Lemma all_events_app t1 t2 :
  all_events (t1 ++ t2) = all_events t1 ++ all_events t2.
Proof. apply flat_map_app. Qed.

Lemma written_app t1 t2 : written (t1 ++ t2) = written t1 ++ written t2.
Proof. unfold written. by rewrite all_events_app, omap_app. Qed.

Lemma renders_app t1 t2 : renders (t1 ++ t2) = renders t1 ++ renders t2.
Proof. unfold renders. by rewrite all_events_app, omap_app. Qed.

Lemma correction_steps_quiet t :
  Forall correction_step t → written t = [] ∧ renders t = [].
Proof.
  induction 1 as [|ev t Hev _ [IH1 IH2]]; [done|].
  change (ev :: t) with ([ev] ++ t). rewrite written_app, renders_app, IH1, IH2.
  destruct Hev as [[raw ->]|[secs ->]]; by cbn.
Qed.

(** The OCR of pages renders nothing, writes nothing and leaves the
    correction model alone. *)
Lemma ocr_steps_events t : Forall ocr_step t → all_events t = t.
Proof.
  induction 1 as [|ev t Hev _ IH]; [done|].
  unfold all_events in *. cbn [flat_map]. rewrite IH.
  destruct Hev as [[c ->]|[secs ->]]; by cbn.
Qed.

Lemma ocr_steps_quiet t :
  Forall ocr_step t →
  written t = [] ∧ renders t = []
  ∧ forallb (λ ev, negb (is_correction_event ev)) t = true.
Proof.
  intros Ht. unfold written, renders. rewrite ocr_steps_events by done.
  induction Ht as [|ev t Hev _ (IH1 & IH2 & IH3)]; [done|].
  cbn [omap list_omap forallb]. rewrite IH3.
  destruct Hev as [[c ->]|[secs ->]]; by cbn.
Qed.

Lemma pool_events tasks :
  Forall (Forall ocr_step) tasks →
  all_events [EvPool tasks] = concat tasks ∧ Forall ocr_step (concat tasks).
Proof.
  unfold all_events. cbn [flat_map events_of]. rewrite app_nil_r.
  induction 1 as [|task tasks Htask _ [IH1 IH2]]; [by split|].
  cbn [flat_map concat]. rewrite IH1. split.
  - f_equal. by apply ocr_steps_events.
  - by apply Forall_app_2.
Qed.

Lemma pool_quiet tasks :
  Forall (Forall ocr_step) tasks →
  written [EvPool tasks] = [] ∧ renders [EvPool tasks] = []
  ∧ is_correction_event (EvPool tasks) = false.
Proof.
  intros Htasks. destruct (pool_events tasks Htasks) as [Hall Hsteps].
  destruct (ocr_steps_quiet _ Hsteps) as (Hw & Hr & _).
  unfold written, renders in *. rewrite Hall.
  rewrite ocr_steps_events in Hw, Hr by done. split_and!; [done|done|].
  clear Hall Hsteps Hw Hr. cbn [is_correction_event].
  induction Htasks as [|task tasks Htask _ IH]; [done|].
  cbn [existsb]. rewrite IH, orb_false_r.
  destruct (ocr_steps_quiet _ Htask) as (_ & _ & Hc).
  clear -Hc. induction task as [|ev task IH]; [done|].
  cbn [existsb forallb] in *. apply andb_true_iff in Hc as [Hev Hc].
  rewrite (IH Hc). by destruct (is_correction_event ev).
Qed.

(** The course of a run on a PDF with pages. *)
Lemma run_pipeline_unfold sched api_key ocr_service corr_service pdf_path
    start_page mode batch_size :
  page_count pdf_path ≠ 0 →
  run_pipeline sched api_key ocr_service corr_service pdf_path start_page
    mode batch_size
  = match api_key with
    | None | Some [] => build_model api_key OcrModel ≫= λ _, mret NoResult
    | Some (_ :: _) =>
        match py_range 1 (page_count pdf_path + 1) batch_size with
        | Raised e => (configured mode, Raised e)
        | Returned starts =>
            let loop :=
              for_each starts
                (process_batch sched ocr_service corr_service pdf_path
                   start_page mode batch_size (page_count pdf_path))
                ([], []) in
            match loop.2 with
            | Raised e => (configured mode ++ loop.1, Raised e)
            | Returned acc =>
                let full_raw := join (NL ++ NL) acc.1 in
                let full_corr := join (NL ++ NL) acc.2 in
                let raw_file :=
                  EvWrite RAW_DIR (stem pdf_path ++ U "_ocr_raw.txt")
                    full_raw in
                let corr_file :=
                  EvWrite CORR_DIR (stem pdf_path ++ U "_ocr_corrected.txt")
                    full_corr in
                if two_pass mode
                then (configured mode ++ loop.1 ++ [raw_file; corr_file],
                      Returned (RawAndCorrected full_raw full_corr))
                else (configured mode ++ loop.1 ++ [raw_file],
                      Returned (RawOnly full_raw))
            end
        end
    end.
Proof.
  intros Hcount. unfold run_pipeline, configured.
  destruct (Z.eqb_spec (page_count pdf_path) 0) as [|_]; [done|].
  destruct api_key as [[|c key]|]; [done| |done].
  unfold build_model. rewrite bind_emit.
  destruct (py_range 1 (page_count pdf_path + 1) batch_size) as [starts|e].
  2: { by destruct (two_pass mode). }
  cbn zeta.
  change (lift (Returned starts)) with (mret starts : io (list Z)).
  destruct (two_pass mode) eqn:Hmode; rewrite ?bind_emit, !bind_ret;
    cbn [fst snd]; revert Hmode.
  all: generalize (for_each starts
                (process_batch sched ocr_service corr_service pdf_path
                   start_page mode batch_size (page_count pdf_path))
                ([], [])).
  all: intros [t [[raw_pages corr_pages]|e]] Hmode;
    unfold mbind, io_bind, emit, mret, io_ret;
    rewrite ?Hmode; cbn [fst snd app]; rewrite ?app_nil_r; reflexivity.
Qed.

Section batch_loop_events.
Context (sched : Z → list (io page_tuple) → list (io page_tuple)).
Context (ocr_service : image → Z → outcome response).
Context (corr_service : str → Z → outcome response).
Context (pdf_path : pdf) (start_page : Z) (mode : str).
Context (batch_size total_pages : Z).

Local Abbreviation batches starts acc :=
  (for_each starts
     (process_batch sched ocr_service corr_service pdf_path start_page mode
        batch_size total_pages) acc).

Local Abbreviation windows_of starts :=
  ((λ s, (s, batch_end total_pages batch_size s)) <$> starts).

Lemma batch_loop_events starts acc :
  written (batches starts acc).1 = [] ∧
  (two_pass mode = false →
   Forall (λ ev, is_correction_event ev = false) (batches starts acc).1) ∧
  renders (batches starts acc).1 `prefix_of` windows_of starts ∧
  (∀ acc', (batches starts acc).2 = Returned acc' →
           renders (batches starts acc).1 = windows_of starts).
Proof.
  revert acc. induction starts as [|s starts IH]; intros acc.
  { cbn. split_and!; [done|constructor|done|done]. }
  cbn [for_each]. rewrite bind_trace, bind_outcome.
  destruct (process_batch_trace sched ocr_service corr_service pdf_path
              start_page mode batch_size total_pages acc s)
    as (tasks & t_corr & Ht & Htasks & Hsteps & Hone).
  destruct (correction_steps_quiet _ Hsteps) as [Hw Hr].
  destruct (pool_quiet _ Htasks) as (Hpw & Hpr & Hpc).
  rewrite Ht. rewrite fmap_cons.
  set (window := EvRender s (batch_end total_pages batch_size s)).
  assert (written (window :: EvPool tasks :: t_corr) = []
          ∧ renders (window :: EvPool tasks :: t_corr)
            = [(s, batch_end total_pages batch_size s)]) as [Hbw Hbr].
  { change (window :: EvPool tasks :: t_corr)
      with ([window] ++ [EvPool tasks] ++ t_corr).
    by rewrite !written_app, !renders_app, Hw, Hr, Hpw, Hpr. }
  assert (two_pass mode = false →
          Forall (λ ev, is_correction_event ev = false)
            (window :: EvPool tasks :: t_corr)) as Hbc.
  { intros Hmode. rewrite (Hone Hmode). by repeat constructor. }
  destruct (_.2) as [acc1|e].
  - destruct (IH acc1) as (IHw & IHc & IHp & IHr).
    rewrite written_app, renders_app, Hbw, Hbr, IHw. cbn [app].
    split_and!; [done| | |].
    + intros Hmode.
      apply (Forall_app_2 _ (window :: EvPool tasks :: t_corr));
        [by apply Hbc | by apply IHc].
    + by apply prefix_cons.
    + intros acc' Hacc'. by rewrite (IHr acc' Hacc').
  - rewrite Hbw, Hbr. split_and!; [done|done| |done].
    apply prefix_cons, prefix_nil.
Qed.

End batch_loop_events.

(** X6: on a PDF with pages, a missing or empty [GEMINI_API_KEY] makes the
    run raise [ValueError] before anything else happens: no model, no
    rendering, no request, no file. *)
Theorem missing_api_key_aborts
    (sched : Z → list (io page_tuple) → list (io page_tuple))
    (api_key : option str)
    (ocr_service : image → Z → outcome response)
    (corr_service : str → Z → outcome response)
    (pdf_path : pdf) (start_page : Z) (mode : str) (batch_size : Z) :
  page_count pdf_path ≠ 0 → api_key = None ∨ api_key = Some [] →
  run_pipeline sched api_key ocr_service corr_service pdf_path start_page
    mode batch_size
  = ([], Raised (Exn ValueError
                   ([10060%N; 32%N] ++ U "Missing GEMINI_API_KEY in .env"))).
Proof.
  intros Hcount Hkey. rewrite run_pipeline_unfold by done.
  by destruct Hkey as [-> | ->].
Qed.

Lemma missing_api_key_aborts_witness :
  run_pipeline last_first (Some []) sample_ocr always_empty sample_pdf 1
    (U "two-pass") 10
  = ([], Raised (Exn ValueError
                   ([10060%N; 32%N] ++ U "Missing GEMINI_API_KEY in .env"))).
Proof.
  apply missing_api_key_aborts; [by vm_compute | by right].
Defined.

(** X7: a batch size of 0 makes the run raise the [ValueError] of [range]
    once the models are made: nothing is rendered, requested or written. *)
Theorem zero_batch_size_raises
    (sched : Z → list (io page_tuple) → list (io page_tuple))
    (key : str)
    (ocr_service : image → Z → outcome response)
    (corr_service : str → Z → outcome response)
    (pdf_path : pdf) (start_page : Z) (mode : str) :
  page_count pdf_path ≠ 0 → key ≠ [] →
  run_pipeline sched (Some key) ocr_service corr_service pdf_path start_page
    mode 0
  = (configured mode,
     Raised (Exn ValueError (U "range() arg 3 must not be zero"))).
Proof.
  intros Hcount Hkey. rewrite run_pipeline_unfold by done.
  by destruct key.
Qed.

Lemma zero_batch_size_raises_witness :
  run_pipeline last_first (Some (U "key")) sample_ocr always_empty sample_pdf
    1 (U "one-pass") 0
  = ([EvConfigure OcrModel],
     Raised (Exn ValueError (U "range() arg 3 must not be zero"))).
Proof.
  apply (zero_batch_size_raises last_first (U "key") sample_ocr always_empty
           sample_pdf 1 (U "one-pass")); [by vm_compute | discriminate].
Defined.

(** X8: with a negative batch size the batch loop does not run at all: no
    page is rendered or read, and the run writes and returns empty
    documents. *)
Theorem negative_batch_size_empty_documents
    (sched : Z → list (io page_tuple) → list (io page_tuple))
    (key : str)
    (ocr_service : image → Z → outcome response)
    (corr_service : str → Z → outcome response)
    (pdf_path : pdf) (start_page : Z) (mode : str) (batch_size : Z) :
  0 < page_count pdf_path → batch_size < 0 → key ≠ [] →
  run_pipeline sched (Some key) ocr_service corr_service pdf_path start_page
    mode batch_size
  = if two_pass mode
    then (configured mode
            ++ [EvWrite RAW_DIR (stem pdf_path ++ U "_ocr_raw.txt") [];
                EvWrite CORR_DIR (stem pdf_path ++ U "_ocr_corrected.txt") []],
          Returned (RawAndCorrected [] []))
    else (configured mode
            ++ [EvWrite RAW_DIR (stem pdf_path ++ U "_ocr_raw.txt") []],
          Returned (RawOnly [])).
Proof.
  intros Hcount Hsize Hkey. rewrite run_pipeline_unfold by lia.
  destruct key as [|c key]; [done|].
  unfold py_range. destruct (Z.eqb_spec batch_size 0) as [|_]; [lia|].
  assert (range_items 1 (page_count pdf_path + 1) batch_size = []) as ->.
  { unfold range_items, range_len.
    rewrite (proj2 (Z.ltb_ge 0 batch_size)) by lia.
    rewrite (proj2 (Z.ltb_ge _ _)) by lia. done. }
  by destruct (two_pass mode).
Qed.

Lemma negative_batch_size_empty_documents_witness :
  run_pipeline last_first (Some (U "key")) sample_ocr always_empty sample_pdf
    1 (U "one-pass") (-5)
  = ([EvConfigure OcrModel; EvWrite RAW_DIR (U "book_ocr_raw.txt") []],
     Returned (RawOnly [])).
Proof.
  apply (negative_batch_size_empty_documents last_first (U "key") sample_ocr
           always_empty sample_pdf 1 (U "one-pass") (-5));
    [by vm_compute | lia | discriminate].
Defined.

(** X9: the files a run writes, the tasks of the pools included, are
    exactly the documents it returns: the raw document, then the corrected
    one in two-pass mode, each under the stem of the PDF with its suffix; a
    run that raises, or that finds no pages, writes no file. *)
Theorem files_written_are_documents_returned
    (sched : Z → list (io page_tuple) → list (io page_tuple))
    (api_key : option str)
    (ocr_service : image → Z → outcome response)
    (corr_service : str → Z → outcome response)
    (pdf_path : pdf) (start_page : Z) (mode : str) (batch_size : Z) :
  let run := run_pipeline sched api_key ocr_service corr_service pdf_path
               start_page mode batch_size in
  written run.1
  = match run.2 with
    | Returned (RawOnly full_raw) =>
        [(RAW_DIR, stem pdf_path ++ U "_ocr_raw.txt", full_raw)]
    | Returned (RawAndCorrected full_raw full_corr) =>
        [(RAW_DIR, stem pdf_path ++ U "_ocr_raw.txt", full_raw);
         (CORR_DIR, stem pdf_path ++ U "_ocr_corrected.txt", full_corr)]
    | Returned NoResult | Raised _ => []
    end.
Proof.
  cbn zeta. destruct (decide (page_count pdf_path = 0)) as [H0|Hcount].
  { unfold run_pipeline. by rewrite H0. }
  rewrite run_pipeline_unfold by done.
  assert (written (configured mode) = []) as Hconf.
  { unfold configured. by destruct (two_pass mode). }
  destruct api_key as [[|c key]|]; [done| |done].
  destruct (py_range _ _ _) as [starts|e]; [|done].
  cbn zeta.
  destruct (batch_loop_events sched ocr_service corr_service pdf_path
              start_page mode batch_size (page_count pdf_path) starts ([], []))
    as (Hw & _).
  destruct (_.2) as [acc|e].
  - destruct (two_pass mode); cbn [fst snd];
      by rewrite !written_app, Hconf, Hw.
  - cbn [fst snd]. by rewrite written_app, Hconf, Hw.
Qed.

(** X10: the renderer is asked for the batch windows, in order, and for
    nothing else, by the tasks of the pools no more than by the batch loop:
    the requests of a run are a prefix of the windows, all of them when the
    run returns; so every request is a range of at most [batch_size] pages
    within [1 .. total_pages], and no page is rendered twice. *)
Theorem render_requests_follow_windows
    (sched : Z → list (io page_tuple) → list (io page_tuple))
    (api_key : option str)
    (ocr_service : image → Z → outcome response)
    (corr_service : str → Z → outcome response)
    (pdf_path : pdf) (start_page : Z) (mode : str) (batch_size : Z) :
  1 ≤ batch_size →
  let run := run_pipeline sched api_key ocr_service corr_service pdf_path
               start_page mode batch_size in
  let windows := windows_from (page_count pdf_path) batch_size 1 in
  renders run.1 `prefix_of` windows ∧
  (∀ v, run.2 = Returned v → renders run.1 = windows) ∧
  Forall (λ w, 1 ≤ w.1 ≤ w.2 ∧ w.2 ≤ page_count pdf_path
               ∧ w.2 - w.1 + 1 ≤ batch_size) (renders run.1) ∧
  NoDup (concat (window_pages <$> renders run.1)).
Proof.
  intros Hsize. cbn zeta.
  set (windows := windows_from (page_count pdf_path) batch_size 1).
  assert (Forall (λ w, 1 ≤ w.1 ≤ w.2 ∧ w.2 ≤ page_count pdf_path
                       ∧ w.2 - w.1 + 1 ≤ batch_size) windows
          ∧ NoDup (concat (window_pages <$> windows))) as [Hwin Hnodup].
  { destruct (decide (1 ≤ page_count pdf_path)) as [Hc|Hc].
    - split.
      + apply Forall_lookup. intros i w Hw.
        apply windows_lookup in Hw as [-> Hi]; [|done..]. cbn [fst snd]. lia.
      + unfold windows.
        rewrite (windows_from_pages (page_count pdf_path) batch_size Hsize
                   (Z.to_nat (page_count pdf_path))) by lia.
        apply NoDup_seqZ.
    - unfold windows, windows_from. rewrite range_items_done by lia.
      split; constructor. }
  assert (renders (run_pipeline sched api_key ocr_service corr_service
                     pdf_path start_page mode batch_size).1
            `prefix_of` windows
          ∧ ∀ v, (run_pipeline sched api_key ocr_service corr_service
                    pdf_path start_page mode batch_size).2 = Returned v →
                 renders (run_pipeline sched api_key ocr_service corr_service
                            pdf_path start_page mode batch_size).1
                 = windows) as [Hprefix Hall].
  { destruct (decide (page_count pdf_path = 0)) as [H0|Hcount].
    { unfold run_pipeline. rewrite H0. cbn. split; [apply prefix_nil|].
      intros _ _. unfold windows, windows_from. rewrite H0.
      by rewrite range_items_done by lia. }
    rewrite run_pipeline_unfold by done.
    assert (renders (configured mode) = []) as Hconf.
    { unfold configured. by destruct (two_pass mode). }
    destruct api_key as [[|c key]|];
      [by split; [apply prefix_nil|] | | by split; [apply prefix_nil|]].
    unfold py_range. destruct (Z.eqb_spec batch_size 0) as [|_]; [lia|].
    cbn zeta.
    destruct (batch_loop_events sched ocr_service corr_service pdf_path
                start_page mode batch_size (page_count pdf_path)
                (range_items 1 (page_count pdf_path + 1) batch_size) ([], []))
      as (_ & _ & Hp & Hr).
    destruct (_.2) as [acc|e] eqn:Hloop.
    - specialize (Hr acc eq_refl).
      destruct (two_pass mode); cbn [fst snd];
        rewrite !renders_app, Hconf, Hr; cbn [app renders omap];
        rewrite app_nil_r; by split.
    - cbn [fst snd]. rewrite renders_app, Hconf. cbn [app]. by split. }
  split_and!; [done|done| |].
  - destruct Hprefix as [k Hk]. rewrite Hk in Hwin.
    by apply Forall_app in Hwin as [? _].
  - destruct Hprefix as [k Hk]. rewrite Hk, fmap_app, concat_app in Hnodup.
    by apply NoDup_app in Hnodup as [? _].
Qed.

Lemma render_requests_follow_windows_witness :
  renders (run_pipeline last_first (Some (U "key")) sample_ocr always_empty
             sample_pdf 1 (U "one-pass") 2).1
  = windows_from (page_count sample_pdf) 2 1.
Proof.
  refine (proj1 (proj2 (render_requests_follow_windows last_first
                          (Some (U "key")) sample_ocr always_empty sample_pdf
                          1 (U "one-pass") 2 _)) _ _).
  - lia.
  - by vm_compute.
Defined.

(** X11: in a mode other than two-pass a run never touches the correction
    model: it is not made, and no request goes to it, from the batch loop
    or from a task of a pool. *)
Theorem one_pass_never_corrects
    (sched : Z → list (io page_tuple) → list (io page_tuple))
    (api_key : option str)
    (ocr_service : image → Z → outcome response)
    (corr_service : str → Z → outcome response)
    (pdf_path : pdf) (start_page : Z) (mode : str) (batch_size : Z) :
  mode ≠ U "two-pass" →
  Forall (λ ev, is_correction_event ev = false)
    (run_pipeline sched api_key ocr_service corr_service pdf_path start_page
       mode batch_size).1.
Proof.
  intros Hmode.
  assert (two_pass mode = false) as Hone by (by apply bool_decide_eq_false).
  destruct (decide (page_count pdf_path = 0)) as [H0|Hcount].
  { unfold run_pipeline. rewrite H0. constructor. }
  rewrite run_pipeline_unfold by done.
  destruct api_key as [[|c key]|]; [constructor| |constructor].
  unfold configured. rewrite Hone.
  destruct (py_range _ _ _) as [starts|e]; [|by repeat constructor].
  cbn zeta.
  destruct (batch_loop_events sched ocr_service corr_service pdf_path
              start_page mode batch_size (page_count pdf_path) starts ([], []))
    as (_ & Hc & _).
  specialize (Hc Hone).
  destruct (_.2) as [acc|e]; cbn [fst snd app].
  - constructor; [done|]. apply Forall_app. split; [done|].
    by repeat constructor.
  - by constructor.
Qed.

Lemma one_pass_never_corrects_witness :
  Forall (λ ev, is_correction_event ev = false)
    (run_pipeline last_first (Some (U "key")) sample_ocr always_empty
       sample_pdf 1 (U "one-pass") 2).1.
Proof. apply one_pass_never_corrects. discriminate. Defined.

(** ** A batch in which the OCR of a page fails *)

Lemma ocr_task_raises ocr_service start_page idx page total e :
  (_ocr_task ocr_service start_page idx page total).2 = Raised e ↔
  (ocr_page ocr_service page 3).2 = Raised e.
Proof.
  unfold _ocr_task. rewrite bind_outcome.
  destruct (ocr_page ocr_service page 3).2; cbn; split; intros;
    by simplify_eq.
Qed.

(** X12: when the OCR of some page of a batch raises, the batch raises the
    exception of one of its failing pages (the first to be collected), right
    after the pool: no correction request is made, not even for the pages
    of the batch whose OCR returned. *)
Theorem failed_ocr_task_aborts_batch
    (sched : Z → list (io page_tuple) → list (io page_tuple))
    (ocr_service : image → Z → outcome response)
    (corr_service : str → Z → outcome response)
    (pdf_path : pdf) (start_page : Z) (mode : str)
    (batch_size total_pages : Z) (acc : list str * list str)
    (batch_start : Z) (batch_pages : list image) (page : image) (e0 : exn) :
  (∀ b futures, sched b futures ≡ₚ futures) →
  (convert_from_path pdf_path batch_start
     (batch_end total_pages batch_size batch_start)).2
  = Returned batch_pages →
  page ∈ batch_pages → (ocr_page ocr_service page 3).2 = Raised e0 →
  ∃ page' e,
    page' ∈ batch_pages ∧ (ocr_page ocr_service page' 3).2 = Raised e ∧
    process_batch sched ocr_service corr_service pdf_path start_page mode
      batch_size total_pages acc batch_start
    = ([EvRender batch_start (batch_end total_pages batch_size batch_start);
        EvPool (fst <$> submit_all ocr_service start_page total_pages
                          batch_start batch_pages)],
       Raised e).
Proof.
  intros Hsched Hconv Hpage Hraise.
  set (futures := submit_all ocr_service start_page total_pages batch_start
                    batch_pages).
  assert (∃ fut e, fut ∈ sched batch_start futures ∧ fut.2 = Raised e)
    as Hex.
  { apply list_elem_of_lookup in Hpage as [i Hi].
    eexists _, e0. split.
    - rewrite Hsched. unfold futures, submit_all.
      by eapply elem_of_lookup_imap_2.
    - by apply ocr_task_raises. }
  destruct (collect_raises (sched batch_start futures) [] Hex)
    as (pre & fut & e & post & Hcompleted & _ & Hfut & Hcollect).
  assert (fut ∈ futures) as Hin.
  { rewrite <- (Hsched batch_start futures), Hcompleted.
    apply elem_of_app. right. apply elem_of_cons. by left. }
  apply elem_of_lookup_imap in Hin as (i & page' & -> & Hi).
  apply ocr_task_raises in Hfut.
  exists page', e. split; [by eapply list_elem_of_lookup_2|].
  split; [done|].
  unfold process_batch, convert_from_path in *.
  rewrite bind_emit in Hconv |- *. cbn [fst snd mret io_ret] in Hconv |- *.
  simplify_eq.
  apply injective_projections.
  - rewrite bind_trace. cbn [fst snd]. rewrite bind_emit. cbn [fst app].
    do 2 f_equal. rewrite bind_trace, collect_trace.
    fold futures. by rewrite Hcollect.
  - rewrite bind_outcome. cbn [fst snd]. rewrite bind_emit. cbn [snd].
    rewrite bind_outcome. fold futures. by rewrite Hcollect.
Qed.

Lemma failed_ocr_task_aborts_batch_witness :
  ∃ page' e,
    page' ∈ [Raster 1 600 700; Raster 2 600 700] ∧
    (ocr_page (λ _ _, Raised (Exn OtherException (U "quota")))
       page' 3).2 = Raised e ∧
    process_batch last_first
      (λ _ _, Raised (Exn OtherException (U "quota"))) always_empty
      sample_pdf 1 (U "two-pass") 2 3 ([], []) 1
    = ([EvRender 1 (batch_end 3 2 1);
        EvPool (fst <$> submit_all
                          (λ _ _, Raised (Exn OtherException (U "quota")))
                          1 3 1 [Raster 1 600 700; Raster 2 600 700])],
       Raised e).
Proof.
  apply (failed_ocr_task_aborts_batch last_first
           (λ _ _, Raised (Exn OtherException (U "quota"))) always_empty
           sample_pdf 1 (U "two-pass") 2 3 ([], []) 1
           [Raster 1 600 700; Raster 2 600 700] (Raster 1 600 700)
           (Exn OtherException (U "quota"))).
  - intros b l. apply reverse_Permutation.
  - reflexivity.
  - apply elem_of_cons. by left.
  - reflexivity.
Defined.

(** ** Timeouts *)

Section timeouts_abort.
Context (sched : Z → list (io page_tuple) → list (io page_tuple)).
Context (Hsched : ∀ batch_start futures, sched batch_start futures ≡ₚ futures).
Context (ocr_service : image → Z → outcome response).
Context (corr_service : str → Z → outcome response).
Context (pdf_path : pdf) (start_page : Z) (mode : str) (batch_size : Z).
Context (key : str).
Context (Hcount : page_count pdf_path = Z.of_nat (length (pages pdf_path))).
Context (Hpages : (1 ≤ length (pages pdf_path))%nat).
Context (Hsize : 1 ≤ batch_size) (Hkey : key ≠ []).
Context (e : exn) (Hcls : exn_cls e ≠ IndexError).
Context (Hexc : except_Exception e = true) (Htime : is_timeout e = true).

(** The pages of the first batch. *)
Local Abbreviation first_batch :=
  (take (Z.to_nat (batch_end (page_count pdf_path) batch_size 1))
     (pages pdf_path)).

Lemma first_batch_rendered :
  (convert_from_path pdf_path 1
     (batch_end (page_count pdf_path) batch_size 1)).2
  = Returned first_batch.
Proof.
  unfold convert_from_path. rewrite bind_emit. cbn [snd mret io_ret].
  change (Z.to_nat (Z.max 1 1 - 1)) with O. rewrite drop_0.
  do 2 f_equal. lia.
Qed.

Lemma first_batch_pages :
  ∃ page batch_pages, first_batch = page :: batch_pages.
Proof.
  destruct (pages pdf_path) as [|page rest] eqn:Hp; [cbn in Hpages; lia|].
  assert (∃ m, Z.to_nat (batch_end (page_count pdf_path) batch_size 1) = S m)
    as [m ->].
  { exists (Z.to_nat (batch_end (page_count pdf_path) batch_size 1) - 1)%nat.
    unfold batch_end. rewrite Hcount. cbn [length]. lia. }
  cbn [take]. eauto.
Qed.

(** A run whose first batch raises raises the same. *)
Lemma run_raises_with_first_batch :
  (process_batch sched ocr_service corr_service pdf_path start_page mode
     batch_size (page_count pdf_path) ([], []) 1).2 = Raised e →
  (run_pipeline sched (Some key) ocr_service corr_service pdf_path start_page
     mode batch_size).2 = Raised e.
Proof.
  intros Hbatch. rewrite run_pipeline_unfold by lia.
  destruct key as [|c key']; [done|].
  unfold py_range. destruct (Z.eqb_spec batch_size 0) as [|_]; [lia|].
  rewrite range_items_step by lia. cbn zeta.
  assert ((for_each
             (1 :: range_items (1 + batch_size) (page_count pdf_path + 1)
                     batch_size)
             (process_batch sched ocr_service corr_service pdf_path
                start_page mode batch_size (page_count pdf_path))
             ([], [])).2 = Raised e) as Hloop.
  { cbn [for_each]. by rewrite bind_outcome, Hbatch. }
  by rewrite Hloop.
Qed.

Lemma ocr_page_timeout page :
  (∀ c k, ocr_service c k = Raised e) →
  (ocr_page ocr_service page 3).2 = Raised e.
Proof.
  intros Hsvc. unfold ocr_page. rewrite bind_outcome.
  assert (∀ c, ocr_attempts (ocr_service c) c 3 (seqZ 0 3)
               = (retry_trace (EvOcrRequest c) 0 3, Raised e)) as Hloop.
  { intros c.
    by apply (ocr_attempts_all_timeout 3 (ocr_service c) c e 3 (Hsvc c)). }
  destruct (split_vertical_chunks page) as [[c ->]|(c1 & c2 & ->)];
    cbn [for_each]; by rewrite bind_outcome, bind_outcome, Hloop.
Qed.

(** When every call of the OCR model times out, the run raises the
    timeout. *)
Lemma run_aborts_on_ocr_timeout :
  (∀ c k, ocr_service c k = Raised e) →
  (run_pipeline sched (Some key) ocr_service corr_service pdf_path start_page
     mode batch_size).2 = Raised e.
Proof.
  intros Hsvc. apply run_raises_with_first_batch.
  unfold process_batch.
  rewrite (bind_returned _ _ first_batch) by apply first_batch_rendered.
  rewrite bind_emit. cbn [snd]. rewrite bind_outcome.
  set (futures := submit_all ocr_service start_page (page_count pdf_path) 1
                    first_batch).
  assert (∀ fut, fut ∈ futures → fut.2 = Raised e) as Hall.
  { intros fut Hfut. unfold futures, submit_all in Hfut.
    apply elem_of_lookup_imap in Hfut as (i & page & -> & _).
    by apply ocr_task_raises, ocr_page_timeout. }
  assert (∃ fut e', fut ∈ sched 1 futures ∧ fut.2 = Raised e') as Hex.
  { destruct first_batch_pages as (page & batch_pages & Hfirst).
    exists (_ocr_task ocr_service start_page 1 page (page_count pdf_path)), e.
    assert (_ocr_task ocr_service start_page 1 page (page_count pdf_path)
            ∈ futures) as Hin.
    { unfold futures. rewrite Hfirst, submit_all_cons.
      apply elem_of_cons. by left. }
    split; [by rewrite Hsched | by apply Hall]. }
  destruct (collect_raises (sched 1 futures) [] Hex)
    as (pre & fut & e' & post & Hcompleted & _ & Hfut & Hcollect).
  rewrite Hcollect. f_equal.
  assert (fut ∈ futures) as Hin.
  { rewrite <- (Hsched 1 futures), Hcompleted.
    apply elem_of_app. right. apply elem_of_cons. by left. }
  apply Hall in Hin. congruence.
Qed.

(** When the OCR returns and every call of the correction model times out,
    the two-pass run raises the timeout. *)
Lemma run_aborts_on_correction_timeout raws :
  mode = U "two-pass" → exn_cls e ≠ AttributeError →
  Forall2 (λ page raw, (ocr_page ocr_service page 3).2 = Returned raw)
    (pages pdf_path) raws →
  (∀ raw k, corr_service raw k = Raised e) →
  (run_pipeline sched (Some key) ocr_service corr_service pdf_path start_page
     mode batch_size).2 = Raised e.
Proof.
  intros Hmode Hattr Hocr Hsvc. apply run_raises_with_first_batch.
  apply two_pass_iff in Hmode.
  unfold process_batch.
  rewrite (bind_returned _ _ first_batch) by apply first_batch_rendered.
  rewrite bind_emit. cbn [snd].
  set (m := Z.to_nat (batch_end (page_count pdf_path) batch_size 1)).
  pose proof (submit_all_values ocr_service start_page (page_count pdf_path)
                1 first_batch (take m raws)) as [Hall Hvalues].
  { by apply Forall2_take. }
  set (futures := submit_all ocr_service start_page (page_count pdf_path) 1
                    first_batch) in *.
  rewrite (bind_returned _ _ (omap value_of (sched 1 futures))).
  2: { rewrite collect_results; [done|]. by rewrite Hsched. }
  rewrite (sort_by_key_restores _ _
             (expected_results start_page 1 (take m raws)));
    [|by rewrite Hsched, Hvalues | apply expected_results_sorted].
  destruct first_batch_pages as (page & batch_pages & Hfirst).
  pose proof (Forall2_length _ _ _ (Forall2_take _ _ _ m Hocr)) as Hlen.
  fold m in Hfirst. rewrite Hfirst in Hlen.
  destruct (take m raws) as [|raw raws']; [done|].
  rewrite expected_results_cons. cbn [for_each]. rewrite bind_outcome.
  unfold correct_and_append. rewrite Hmode. rewrite bind_outcome.
  unfold correct_text.
  pose proof (correct_attempts_all_timeout 3 (corr_service raw) raw e 3
                (Hsvc raw) Hcls Hattr Hexc Htime ltac:(done)) as Hloop.
  change (remaining 3 3) with (seqZ 0 3) in Hloop. by rewrite Hloop.
Qed.

End timeouts_abort.

(** C4: an operation whose every call fails with the same timeout, an
    exception that [except Exception] catches, that is not of a class read
    as an empty response (no [IndexError]; for the correction no
    [AttributeError] either) and whose text contains ["DeadlineExceeded"]
    or ["504"], as the [DeadlineExceeded] of the API client does, is called
    exactly 3 times when [max_retries = 3], with waits of 10 and 20
    seconds, and the timeout then propagates, out of [ocr_page] and
    [correct_text] and out of the run.  An error that is neither a timeout
    nor read as an empty response propagates from the first call: one whose
    text has no marker, and also one that [except Exception] does not
    catch, whatever its text. *)
Theorem timeouts_escalate (chunk : image) (raw : str) (e : exn) :
  exn_cls e ≠ IndexError →
  (* the retry loops *)
  (except_Exception e = true → is_timeout e = true →
   ∀ service : Z → outcome response, (∀ k, service k = Raised e) →
     ocr_attempts service chunk 3 (seqZ 0 3)
     = ([EvOcrRequest chunk; EvSleep (backoff 0); EvOcrRequest chunk;
         EvSleep (backoff 1); EvOcrRequest chunk], Raised e) ∧
     (split_vertical chunk = [chunk] →
      ocr_page (λ _, service) chunk 3
      = ([EvOcrRequest chunk; EvSleep 10; EvOcrRequest chunk; EvSleep 20;
          EvOcrRequest chunk], Raised e)) ∧
     (exn_cls e ≠ AttributeError →
      correct_text (λ _, service) raw 3
      = ([EvCorrRequest raw; EvSleep (backoff 0); EvCorrRequest raw;
          EvSleep (backoff 1); EvCorrRequest raw], Raised e))) ∧
  (* the run *)
  (except_Exception e = true → is_timeout e = true →
   ∀ sched ocr_service corr_service pdf_path start_page mode batch_size key,
     (∀ batch_start futures, sched batch_start futures ≡ₚ futures) →
     page_count pdf_path = Z.of_nat (length (pages pdf_path)) →
     (1 ≤ length (pages pdf_path))%nat → 1 ≤ batch_size → key ≠ [] →
     let run := run_pipeline sched (Some key) ocr_service corr_service
                  pdf_path start_page mode batch_size in
     ((∀ c k, ocr_service c k = Raised e) → run.2 = Raised e) ∧
     (exn_cls e ≠ AttributeError → mode = U "two-pass" →
      (∃ raws,
         Forall2 (λ page raw, (ocr_page ocr_service page 3).2 = Returned raw)
           (pages pdf_path) raws) →
      (∀ raw k, corr_service raw k = Raised e) → run.2 = Raised e)) ∧
  (* other errors *)
  (except_Exception e = false ∨ is_timeout e = false →
   ∀ (service : Z → outcome response) max_retries attempt rest,
     service attempt = Raised e →
     ocr_attempts service chunk max_retries (attempt :: rest)
     = ([EvOcrRequest chunk], Raised e) ∧
     (exn_cls e ≠ AttributeError →
      correct_attempts service raw max_retries (attempt :: rest)
      = ([EvCorrRequest raw], Raised e))).
Proof.
  intros Hcls. split_and!.
  - intros Hexc Htime service Hsvc.
    pose proof (ocr_attempts_all_timeout 3 service chunk e 3 Hsvc Hcls Hexc
                  Htime ltac:(done)) as Hocr.
    change (remaining 3 3) with (seqZ 0 3) in Hocr.
    split; [exact Hocr|]. split.
    + intros Hsplit. unfold ocr_page. rewrite Hsplit. cbn [for_each].
      by rewrite Hocr.
    + intros Hattr.
      pose proof (correct_attempts_all_timeout 3 service raw e 3 Hsvc Hcls
                    Hattr Hexc Htime) as H. by apply H.
  - intros Hexc Htime sched ocr_service corr_service pdf_path start_page mode
      batch_size key Hsched Hcount Hpages Hsize Hkey. cbn zeta. split.
    + intros Hsvc. by apply run_aborts_on_ocr_timeout.
    + intros Hattr Hmode [raws Hocr] Hsvc.
      by apply (run_aborts_on_correction_timeout sched Hsched ocr_service
                  corr_service pdf_path start_page mode batch_size key Hcount
                  Hpages Hsize Hkey e Hcls Hexc Htime raws).
  - intros Hno service max_retries attempt rest Hsvc. split.
    + cbn [ocr_attempts].
      rewrite Hsvc. rewrite decide_False by done.
      destruct Hno as [-> | Hno]; [done|]. rewrite Hno. by case_match.
    + intros Hattr. cbn [correct_attempts].
      rewrite Hsvc. rewrite decide_False by (intros [?|?]; done).
      destruct Hno as [-> | Hno]; [done|]. rewrite Hno. by case_match.
Qed.

Lemma timeouts_escalate_witness :
  ocr_attempts (λ _, Raised (Exn OtherException (U "504 Deadline Exceeded")))
    (Raster 1 600 700) 3 (seqZ 0 3)
  = ([EvOcrRequest (Raster 1 600 700); EvSleep 10;
      EvOcrRequest (Raster 1 600 700); EvSleep 20;
      EvOcrRequest (Raster 1 600 700)],
     Raised (Exn OtherException (U "504 Deadline Exceeded"))).
Proof.
  refine (proj1 (proj1 (timeouts_escalate (Raster 1 600 700) (U "raw")
                          (Exn OtherException (U "504 Deadline Exceeded")) _)
                   _ _ _ _));
    [discriminate | reflexivity | reflexivity | reflexivity].
Defined.

(** The run of the same timeout on the sample PDF: the OCR of every page
    times out, and the run raises the timeout. *)
Example timeouts_abort_sample_run :
  (run_pipeline last_first (Some (U "key"))
     (λ _ _, Raised (Exn OtherException (U "504 Deadline Exceeded")))
     always_empty sample_pdf 1 (U "two-pass") 2).2
  = Raised (Exn OtherException (U "504 Deadline Exceeded")).
Proof. vm_compute. reflexivity. Qed.

(** ** Labels *)

Lemma U_inj s1 s2 : U s1 = U s2 → s1 = s2.
Proof.
  unfold U. intros H.
  assert (Inj (=) (=) N_of_ascii) as Hinj.
  { intros a b Hab.
    by rewrite <- (ascii_N_embedding a), Hab, ascii_N_embedding. }
  apply (inj (fmap N_of_ascii)) in H.
  by rewrite <- (string_of_list_ascii_of_string s1), H,
    string_of_list_ascii_of_string.
Qed.

(** The decimal text of an integer determines it. *)
Lemma of_int_inj a b : of_int a = of_int b → a = b.
Proof.
  unfold of_int. intros H. apply U_inj in H.
  apply DecimalZ.to_int_inj.
  assert (∀ z, NilZero.int_of_string (NilZero.string_of_int (Z.to_int z))
               = Some (Z.to_int z)) as Hparse.
  { intros z. apply NilZero.isi; destruct z; cbn; try discriminate;
      intros [= Hnil]; by apply DecimalPos.Unsigned.to_uint_nonnil in Hnil. }
  pose proof (Hparse a) as Ha. rewrite H, Hparse in Ha. by simplify_eq.
Qed.

(** X13: for a given start page, two pages never share a label: the label
    determines the page index. *)
Theorem page_label_inj (start_page i j : Z) :
  i ≠ j → page_label start_page i ≠ page_label start_page j.
Proof.
  intros Hij H. apply Hij. revert H. unfold page_label.
  change (U "Page ") with [80; 97; 103; 101; 32]%N.
  change (U "[Front Matter p.")
    with [91; 70; 114; 111; 110; 116; 32; 77; 97; 116; 116; 101; 114; 32;
          112; 46]%N.
  destruct (1 <=? i - start_page + 1), (1 <=? j - start_page + 1);
    intros H; try discriminate H.
  - apply app_inv_head, of_int_inj in H. lia.
  - apply app_inv_head, app_inv_tail in H. by apply of_int_inj.
Qed.

Lemma page_label_inj_witness : page_label 3 2 ≠ page_label 3 4.
Proof. apply page_label_inj. lia. Defined.


(** ** The prompts *)

Section prompts.
Context (int : str → outcome Z).

Lemma get_int_input_pass min_val line stdin :
  passed_over_by_int_input int min_val line →
  get_int_input int min_val (line :: stdin) = get_int_input int min_val stdin.
Proof.
  unfold passed_over_by_int_input. cbn [get_int_input].
  destruct (strip line) as [|c value]; [done|].
  intros [?|[(num & -> & Hnum)|(e & -> & He)]]; [done| |].
  - by rewrite (proj2 (Z.leb_gt _ _) Hnum).
  - by rewrite decide_True.
Qed.

Lemma get_int_input_accepts min_val skipped line rest num :
  Forall (passed_over_by_int_input int min_val) skipped →
  strip line ≠ [] → int (strip line) = Returned num → min_val ≤ num →
  get_int_input int min_val (skipped ++ line :: rest) = (rest, Returned num).
Proof.
  intros Hskipped Hline Hint Hnum.
  induction Hskipped as [|l skipped Hl _ IH].
  - cbn [app get_int_input]. revert Hline Hint.
    destruct (strip line) as [|c value]; [done|]. intros _ ->.
    by rewrite (proj2 (Z.leb_le _ _) Hnum).
  - cbn [app]. by rewrite get_int_input_pass.
Qed.

Lemma get_int_input_eof min_val stdin :
  Forall (passed_over_by_int_input int min_val) stdin →
  get_int_input int min_val stdin = ([], Raised EOFError).
Proof.
  intros Hall. induction Hall as [|l stdin Hl _ IH]; [done|].
  by rewrite get_int_input_pass.
Qed.

Lemma get_int_input_returned min_val stdin rest num :
  get_int_input int min_val stdin = (rest, Returned num) →
  min_val ≤ num ∧ (length rest < length stdin)%nat.
Proof.
  revert rest num. induction stdin as [|line stdin IH]; intros rest num H;
    [done|].
  cbn [get_int_input length] in *.
  assert (get_int_input int min_val stdin = (rest, Returned num) →
          min_val ≤ num ∧ (length rest < S (length stdin))%nat) as IH'.
  { intros H'. destruct (IH _ _ H'). split; [done | lia]. }
  destruct (strip line) as [|c value]; [by apply IH'|].
  destruct (int (c :: value)) as [n|e].
  - destruct (Z.leb_spec min_val n); [|by apply IH'].
    simplify_eq. split; [done | lia].
  - destruct (decide _); [by apply IH' | done].
Qed.

Lemma get_int_input_raised min_val stdin rest e :
  get_int_input int min_val stdin = (rest, Raised e) →
  exn_cls e ≠ ValueError.
Proof.
  revert rest e. induction stdin as [|line stdin IH]; intros rest e H.
  { cbn in H. by simplify_eq. }
  cbn [get_int_input] in H.
  destruct (strip line) as [|c value]; [by eapply IH|].
  destruct (int (c :: value)) as [n|e'].
  - destruct (min_val <=? n); [done | by eapply IH].
  - destruct (decide _); [by eapply IH | by simplify_eq].
Qed.

(** X14: [get_int_input] passes over blank lines, lines that are no
    integer and integers below [min_val], and returns the first integer
    that is at least [min_val], leaving the lines after it; when the input
    ends first it raises [EOFError].  What it returns is never below
    [min_val], and it never lets a [ValueError] through. *)
Theorem get_int_input_spec (min_val : Z) :
  (∀ skipped line rest num,
     Forall (passed_over_by_int_input int min_val) skipped →
     strip line ≠ [] → int (strip line) = Returned num → min_val ≤ num →
     get_int_input int min_val (skipped ++ line :: rest)
     = (rest, Returned num)) ∧
  (∀ stdin,
     Forall (passed_over_by_int_input int min_val) stdin →
     get_int_input int min_val stdin = ([], Raised EOFError)) ∧
  (∀ stdin rest num,
     get_int_input int min_val stdin = (rest, Returned num) →
     min_val ≤ num ∧ (length rest < length stdin)%nat) ∧
  (∀ stdin rest e,
     get_int_input int min_val stdin = (rest, Raised e) →
     exn_cls e ≠ ValueError).
Proof.
  split_and!.
  - apply get_int_input_accepts.
  - apply get_int_input_eof.
  - apply get_int_input_returned.
  - apply get_int_input_raised.
Qed.

Lemma get_batch_size_pass line stdin :
  passed_over_by_batch_size int line →
  get_batch_size int (line :: stdin) = get_batch_size int stdin.
Proof.
  unfold passed_over_by_batch_size. cbn [get_batch_size].
  destruct (strip line) as [|c value]; [by intros [? _]|].
  intros [_ [(num & -> & Hnum)|(e & -> & He)]].
  - by rewrite (proj2 (Z.leb_gt _ _) Hnum).
  - by rewrite decide_True.
Qed.

Lemma get_batch_size_default skipped line rest :
  Forall (passed_over_by_batch_size int) skipped → strip line = [] →
  get_batch_size int (skipped ++ line :: rest) = (rest, Returned 10).
Proof.
  intros Hskipped Hline. induction Hskipped as [|l skipped Hl _ IH].
  - cbn [app get_batch_size]. by rewrite Hline.
  - cbn [app]. by rewrite get_batch_size_pass.
Qed.

Lemma get_batch_size_accepts skipped line rest num :
  Forall (passed_over_by_batch_size int) skipped →
  strip line ≠ [] → int (strip line) = Returned num → 1 ≤ num →
  get_batch_size int (skipped ++ line :: rest) = (rest, Returned num).
Proof.
  intros Hskipped Hline Hint Hnum.
  induction Hskipped as [|l skipped Hl _ IH].
  - cbn [app get_batch_size]. revert Hline Hint.
    destruct (strip line) as [|c value]; [done|]. intros _ ->.
    by rewrite (proj2 (Z.leb_le _ _) Hnum).
  - cbn [app]. by rewrite get_batch_size_pass.
Qed.

Lemma get_batch_size_returned stdin rest num :
  get_batch_size int stdin = (rest, Returned num) → 1 ≤ num.
Proof.
  revert rest num. induction stdin as [|line stdin IH]; intros rest num H;
    [done|].
  cbn [get_batch_size] in H.
  destruct (strip line) as [|c value]; [by simplify_eq|].
  destruct (int (c :: value)) as [n|e].
  - destruct (Z.leb_spec 1 n); [by simplify_eq | by eapply IH].
  - destruct (decide _); [by eapply IH | done].
Qed.

(** X15: [get_batch_size] passes over lines that are no integer and
    integers below 1; a blank line gives the default 10, an integer of at
    least 1 is returned as it is; whatever it returns is at least 1. *)
Theorem get_batch_size_spec :
  (∀ skipped line rest,
     Forall (passed_over_by_batch_size int) skipped → strip line = [] →
     get_batch_size int (skipped ++ line :: rest) = (rest, Returned 10)) ∧
  (∀ skipped line rest num,
     Forall (passed_over_by_batch_size int) skipped →
     strip line ≠ [] → int (strip line) = Returned num → 1 ≤ num →
     get_batch_size int (skipped ++ line :: rest) = (rest, Returned num)) ∧
  (∀ stdin rest num,
     get_batch_size int stdin = (rest, Returned num) → 1 ≤ num).
Proof.
  split_and!.
  - apply get_batch_size_default.
  - apply get_batch_size_accepts.
  - apply get_batch_size_returned.
Qed.

End prompts.

Lemma get_int_input_spec_witness :
  get_int_input sample_int 1 [U ""; U "abc"; U "0"; U " 4 "; U "9"]
  = ([U "9"], Returned 4).
Proof.
  apply (proj1 (get_int_input_spec sample_int 1)
           [U ""; U "abc"; U "0"] (U " 4 ") [U "9"] 4).
  - apply Forall_cons_2; [|apply Forall_cons_2; [|apply Forall_cons_2;
      [|apply Forall_nil_2]]].
    + left. vm_compute. reflexivity.
    + right. right. exists (Exn ValueError (U "invalid literal for int()")).
      split; vm_compute; reflexivity.
    + right. left. exists 0. split; [vm_compute; reflexivity | lia].
  - vm_compute. discriminate.
  - vm_compute. reflexivity.
  - lia.
Defined.

Lemma get_batch_size_spec_witness :
  get_batch_size sample_int [U "0"; U "ten"; U "  "; U "5"]
  = ([U "5"], Returned 10).
Proof.
  apply (proj1 (get_batch_size_spec sample_int)
           [U "0"; U "ten"] (U "  ") [U "5"]).
  - apply Forall_cons_2; [|apply Forall_cons_2; [|apply Forall_nil_2]].
    + split; [vm_compute; discriminate|].
      left. exists 0. split; [vm_compute; reflexivity | lia].
    + split; [vm_compute; discriminate|].
      right. exists (Exn ValueError (U "invalid literal for int()")).
      split; vm_compute; reflexivity.
  - vm_compute. reflexivity.
Defined.

Lemma get_ocr_mode_pass line stdin :
  passed_over_by_mode line → get_ocr_mode (line :: stdin) = get_ocr_mode stdin.
Proof.
  intros [H1 H2]. cbn [get_ocr_mode].
  by rewrite !bool_decide_false.
Qed.

Lemma get_ocr_mode_accepts skipped line rest :
  Forall passed_over_by_mode skipped →
  (strip line = U "1" →
   get_ocr_mode (skipped ++ line :: rest) = (rest, Returned (U "one-pass")))
  ∧
  (strip line = U "2" →
   get_ocr_mode (skipped ++ line :: rest) = (rest, Returned (U "two-pass"))).
Proof.
  intros Hskipped. induction Hskipped as [|l skipped Hl _ IH].
  - cbn [app get_ocr_mode]. split; intros ->; done.
  - cbn [app]. by rewrite get_ocr_mode_pass.
Qed.

Lemma get_ocr_mode_returned stdin rest mode :
  get_ocr_mode stdin = (rest, Returned mode) →
  mode = U "one-pass" ∨ mode = U "two-pass".
Proof.
  revert rest mode. induction stdin as [|line stdin IH]; intros rest mode H;
    [done|].
  cbn [get_ocr_mode] in H.
  repeat case_bool_decide; simplify_eq; eauto.
Qed.

(** X16: [get_ocr_mode] passes over every line but 1 and 2 (spaces around
    them aside); 1 gives ["one-pass"] and 2 gives ["two-pass"], and it
    returns no other mode. *)
Theorem get_ocr_mode_spec :
  (∀ skipped line rest,
     Forall passed_over_by_mode skipped →
     (strip line = U "1" →
      get_ocr_mode (skipped ++ line :: rest) = (rest, Returned (U "one-pass")))
     ∧
     (strip line = U "2" →
      get_ocr_mode (skipped ++ line :: rest)
      = (rest, Returned (U "two-pass")))) ∧
  (∀ stdin rest mode,
     get_ocr_mode stdin = (rest, Returned mode) →
     mode = U "one-pass" ∨ mode = U "two-pass").
Proof.
  split.
  - apply get_ocr_mode_accepts.
  - apply get_ocr_mode_returned.
Qed.

Lemma get_ocr_mode_spec_witness :
  get_ocr_mode [U "3"; U ""; U " 2 "; U "1"] = ([U "1"], Returned (U "two-pass")).
Proof.
  apply (proj1 get_ocr_mode_spec [U "3"; U ""] (U " 2 ") [U "1"]).
  - apply Forall_cons_2; [|apply Forall_cons_2; [|apply Forall_nil_2]];
      split; vm_compute; discriminate.
  - vm_compute. reflexivity.
Defined.

(** ** Choosing the file *)

Lemma py_getitem_in_range {A} (l : list A) (i : Z) :
  0 ≤ i < Z.of_nat (length l) →
  ∃ x, l !! Z.to_nat i = Some x ∧ py_getitem l i = Returned x.
Proof.
  intros Hi. unfold py_getitem.
  destruct (lookup_lt_is_Some_2 l (Z.to_nat i)) as [x Hx]; [lia|].
  exists x. split; [done|].
  rewrite (proj2 (Z.ltb_ge _ _)) by lia.
  rewrite (proj2 (Z.leb_le _ _)), (proj2 (Z.ltb_lt _ _)) by lia.
  cbn [andb]. by rewrite Hx.
Qed.

Lemma py_getitem_from_end {A} (l : list A) (i : Z) :
  - Z.of_nat (length l) ≤ i < 0 →
  ∃ x, l !! Z.to_nat (Z.of_nat (length l) + i) = Some x
       ∧ py_getitem l i = Returned x.
Proof.
  intros Hi. unfold py_getitem.
  destruct (lookup_lt_is_Some_2 l (Z.to_nat (Z.of_nat (length l) + i)))
    as [x Hx]; [lia|].
  exists x. split; [done|].
  rewrite (proj2 (Z.ltb_lt _ _)) by lia.
  rewrite (proj2 (Z.leb_le _ _)), (proj2 (Z.ltb_lt _ _)) by lia.
  cbn [andb]. replace (i + Z.of_nat (length l)) with (Z.of_nat (length l) + i)
    by lia.
  by rewrite Hx.
Qed.

Lemma py_getitem_out_of_range {A} (l : list A) (i : Z) :
  i < - Z.of_nat (length l) ∨ Z.of_nat (length l) ≤ i →
  py_getitem l i = Raised (Exn IndexError (U "list index out of range")).
Proof.
  intros Hi. unfold py_getitem.
  destruct (Z.ltb_spec i 0).
  - by rewrite (proj2 (Z.leb_gt _ _)) by lia.
  - rewrite (proj2 (Z.ltb_ge _ _)) by lia. by rewrite andb_false_r.
Qed.

Lemma py_getitem_member {A} (l : list A) (i : Z) x :
  py_getitem l i = Returned x → x ∈ l.
Proof.
  unfold py_getitem. destruct (_ && _); [|done].
  destruct (l !! _) as [y|] eqn:Hy; [|done].
  intros [= <-]. by eapply list_elem_of_lookup_2.
Qed.

Lemma select_pdf_listed (int : str → outcome Z) (pdfs : list pdf)
    (line : str) (rest : list str) (idx : Z) (f : pdf) :
  int line = Returned idx → 1 ≤ idx →
  pdfs !! Z.to_nat (idx - 1) = Some f →
  select_pdf int pdfs (line :: rest) = (rest, Returned (Some f)).
Proof.
  intros Hint Hidx Hf. unfold select_pdf.
  destruct pdfs as [|p pdfs']; [done|]. lazy beta iota. rewrite Hint.
  set (l := p :: pdfs') in *.
  apply lookup_lt_Some in Hf as Hlt.
  destruct (py_getitem_in_range l (idx - 1)) as (g & Hg & ->); [lia|].
  by simplify_eq.
Qed.

(** X17: with [n] files listed, a choice from 1 to [n] selects the file
    listed under that number; a choice from [1 - n] to 0 is accepted too
    and counts from the end of the list, so that 0 selects the last file;
    any other integer raises [IndexError].  One line is read in each
    case. *)
Theorem select_pdf_choice (int : str → outcome Z) (pdfs : list pdf)
    (line : str) (rest : list str) (idx : Z) :
  pdfs ≠ [] → int line = Returned idx →
  let n := Z.of_nat (length pdfs) in
  (1 ≤ idx ≤ n →
   ∃ f, pdfs !! Z.to_nat (idx - 1) = Some f
        ∧ select_pdf int pdfs (line :: rest) = (rest, Returned (Some f))) ∧
  (1 - n ≤ idx ≤ 0 →
   ∃ f, pdfs !! Z.to_nat (n + idx - 1) = Some f
        ∧ select_pdf int pdfs (line :: rest) = (rest, Returned (Some f))) ∧
  (idx < 1 - n ∨ n < idx →
   ∃ e, exn_cls e = IndexError
        ∧ select_pdf int pdfs (line :: rest) = (rest, Raised e)).
Proof.
  intros Hpdfs Hint n. unfold select_pdf.
  destruct pdfs as [|p pdfs']; [done|]. lazy beta iota. rewrite Hint.
  set (l := p :: pdfs') in *. split_and!.
  - intros Hidx. destruct (py_getitem_in_range l (idx - 1)) as (f & Hf & ->);
      [subst n; lia|]. eauto.
  - intros Hidx. destruct (py_getitem_from_end l (idx - 1)) as (f & Hf & ->);
      [subst n; lia|].
    exists f. split; [|done].
    by replace (n + idx - 1) with (Z.of_nat (length l) + (idx - 1))
      by (subst n; lia).
  - intros Hidx. rewrite py_getitem_out_of_range by (subst n; lia).
    eexists. split; [|reflexivity]. reflexivity.
Qed.

Lemma select_pdf_choice_witness :
  select_pdf sample_int [sample_pdf; empty_pdf] [U "0"; U "2"]
  = ([U "2"], Returned (Some empty_pdf)).
Proof.
  pose proof (select_pdf_choice sample_int [sample_pdf; empty_pdf]
                (U "0") [U "2"] 0) as H.
  destruct H as (_ & H & _); [discriminate | vm_compute; reflexivity |].
  destruct H as (f & Hf & ->); [vm_compute; split; discriminate|].
  vm_compute in Hf. injection Hf as <-. reflexivity.
Defined.

Lemma select_pdf_none (int : str → outcome Z) (pdfs : list pdf)
    (stdin rest : list str) :
  select_pdf int pdfs stdin = (rest, Returned None)
  ↔ pdfs = [] ∧ rest = stdin.
Proof.
  unfold select_pdf. split.
  - destruct pdfs as [|p pdfs']; [by intros [= ->]|].
    destruct stdin as [|line stdin']; [done|].
    destruct (int line); [|done]. by destruct (py_getitem _ _).
  - by intros [-> ->].
Qed.

Lemma select_pdf_member (int : str → outcome Z) (pdfs : list pdf)
    (stdin rest : list str) (f : pdf) :
  select_pdf int pdfs stdin = (rest, Returned (Some f)) → f ∈ pdfs.
Proof.
  unfold select_pdf. destruct pdfs as [|p pdfs']; [done|].
  destruct stdin as [|line stdin']; [done|].
  destruct (int line); [|done].
  destruct (py_getitem _ _) as [g|] eqn:Hg; [|done].
  intros [= _ <-]. by eapply py_getitem_member.
Qed.

(** X18: [select_pdf] returns no file exactly when none is listed, and
    then it reads no input; a file it returns is one of those listed. *)
Theorem select_pdf_result (int : str → outcome Z) (pdfs : list pdf)
    (stdin rest : list str) :
  (select_pdf int pdfs stdin = (rest, Returned None)
   ↔ pdfs = [] ∧ rest = stdin) ∧
  (∀ f, select_pdf int pdfs stdin = (rest, Returned (Some f)) → f ∈ pdfs).
Proof.
  split; [apply select_pdf_none | intros f; apply select_pdf_member].
Qed.

Lemma select_pdf_result_witness : sample_pdf ∈ [sample_pdf; empty_pdf].
Proof.
  apply (proj2 (select_pdf_result sample_int [sample_pdf; empty_pdf]
                  [U "1"; U "2"] [U "2"]) sample_pdf).
  vm_compute. reflexivity.
Defined.

(** ** The script *)

Section script.
Context (int : str → outcome Z)
  (sched : Z → list (io page_tuple) → list (io page_tuple))
  (api_key : option str)
  (ocr_service : image → Z → outcome response)
  (corr_service : str → Z → outcome response).

Lemma bind_ran_inv (m : io pipeline_result) t (v : main_end) :
  (r ← m; mret (Ran r)) = (t, Returned v) →
  ∃ r, v = Ran r ∧ m = (t, Returned r).
Proof.
  destruct m as [t' [r|e]];
    unfold mbind, io_bind, mret, io_ret; cbn [fst snd]; [|done].
  rewrite app_nil_r. intros [= -> <-]. eauto.
Qed.

(** X19: whenever the script runs the pipeline to its end, it ran it on
    one of the listed files, in one of the two modes, with a batch size
    and a start page of at least 1, and the events of the run and the
    result are the pipeline's. *)
Theorem main_runs_pipeline (pdfs : list pdf) (stdin rest : list str)
    (t : list event) (v : pipeline_result) :
  main int sched api_key ocr_service corr_service pdfs stdin
  = (rest, (t, Returned (Ran v))) →
  ∃ pdf mode batch_size start_page,
    pdf ∈ pdfs ∧ (mode = U "one-pass" ∨ mode = U "two-pass")
    ∧ 1 ≤ batch_size ∧ 1 ≤ start_page
    ∧ run_pipeline sched api_key ocr_service corr_service pdf start_page mode
        batch_size = (t, Returned v).
Proof.
  unfold main, and_then, get_start_page.
  destruct (select_pdf int pdfs stdin) as [in1 [[f|]|e]] eqn:Hselect;
    cbn [fst snd]; [|by intros [= _ _ ?]|by intros [= _ _ ?]].
  destruct (get_ocr_mode in1) as [in2 [mode|e]] eqn:Hmode;
    cbn [fst snd]; [|by intros [= _ _ ?]].
  destruct (get_batch_size int in2) as [in3 [batch_size|e]] eqn:Hbatch;
    cbn [fst snd]; [|by intros [= _ _ ?]].
  destruct (get_int_input int 1 in3) as [in4 [start_page|e]] eqn:Hstart;
    cbn [fst snd]; [|by intros [= _ _ ?]].
  intros [= -> Hrun]. exists f, mode, batch_size, start_page.
  apply bind_ran_inv in Hrun as (r & [= <-] & Hrun).
  split_and!; [|by eapply get_ocr_mode_returned| | |done].
  - by eapply select_pdf_member.
  - by eapply get_batch_size_returned.
  - by eapply get_int_input_returned.
Qed.

(** X20: the script ends with [sys.exit()] exactly when no file is listed;
    it has then read no input and caused no event. *)
Theorem main_exits (pdfs : list pdf) (stdin rest : list str)
    (t : list event) :
  main int sched api_key ocr_service corr_service pdfs stdin
  = (rest, (t, Returned Exited))
  ↔ pdfs = [] ∧ rest = stdin ∧ t = [].
Proof.
  split.
  - unfold main, and_then, get_start_page.
    destruct (select_pdf int pdfs stdin) as [in1 [[f|]|e]] eqn:Hselect;
      cbn [fst snd]; [| |by intros [= _ _ ?]].
    2: { intros [= -> <-]. by apply select_pdf_none in Hselect as [-> ->]. }
    destruct (get_ocr_mode in1) as [in2 [mode|e]];
      cbn [fst snd]; [|by intros [= _ _ ?]].
    destruct (get_batch_size int in2) as [in3 [batch_size|e]];
      cbn [fst snd]; [|by intros [= _ _ ?]].
    destruct (get_int_input int 1 in3) as [in4 [start_page|e]];
      cbn [fst snd]; [|by intros [= _ _ ?]].
    intros [= -> Hrun]. by apply bind_ran_inv in Hrun as (r & [=] & _).
  - by intros (-> & -> & ->).
Qed.

(** X21: the script asks for the file, then the mode, then the batch
    size, then the start page, each prompt passing over the lines it
    rejects, and runs the pipeline with the four answers; the lines after
    the start page are left unread. *)
Theorem main_prompts_in_order (pdfs : list pdf) (f : pdf)
    (choice : str) (idx : Z)
    (skipped_mode : list str) (mode_line : str) (mode : str)
    (skipped_batch : list str) (batch_line : str) (batch_size : Z)
    (skipped_start : list str) (start_line : str) (start_page : Z)
    (rest : list str) :
  int choice = Returned idx → 1 ≤ idx →
  pdfs !! Z.to_nat (idx - 1) = Some f →
  Forall passed_over_by_mode skipped_mode →
  (strip mode_line = U "1" ∧ mode = U "one-pass"
   ∨ strip mode_line = U "2" ∧ mode = U "two-pass") →
  Forall (passed_over_by_batch_size int) skipped_batch →
  (strip batch_line = [] ∧ batch_size = 10
   ∨ strip batch_line ≠ [] ∧ int (strip batch_line) = Returned batch_size
     ∧ 1 ≤ batch_size) →
  Forall (passed_over_by_int_input int 1) skipped_start →
  strip start_line ≠ [] → int (strip start_line) = Returned start_page →
  1 ≤ start_page →
  main int sched api_key ocr_service corr_service pdfs
    (choice :: (skipped_mode ++ mode_line :: skipped_batch ++ batch_line
                  :: skipped_start ++ start_line :: rest))
  = (rest,
     v ← run_pipeline sched api_key ocr_service corr_service f start_page
           mode batch_size;
     mret (Ran v)).
Proof.
  intros Hint Hidx Hf Hsm Hmode Hsb Hbatch Hss Hstart Hsint Hsp.
  unfold main, get_start_page.
  rewrite (select_pdf_listed int pdfs choice _ idx f Hint Hidx Hf).
  unfold and_then at 1. cbn [fst snd].
  assert (get_ocr_mode (skipped_mode ++ mode_line :: skipped_batch
                          ++ batch_line :: skipped_start ++ start_line :: rest)
          = (skipped_batch ++ batch_line :: skipped_start ++ start_line :: rest,
             Returned mode)) as ->.
  { destruct Hmode as [[H ->]|[H ->]];
      by apply (get_ocr_mode_accepts skipped_mode mode_line _ Hsm). }
  unfold and_then at 1. cbn [fst snd].
  assert (get_batch_size int (skipped_batch ++ batch_line :: skipped_start
                                ++ start_line :: rest)
          = (skipped_start ++ start_line :: rest, Returned batch_size)) as ->.
  { destruct Hbatch as [[H ->]|(H & Hb & Hge)].
    - by apply get_batch_size_default.
    - by apply get_batch_size_accepts. }
  unfold and_then at 1. cbn [fst snd].
  rewrite (get_int_input_accepts int 1 skipped_start start_line rest
             start_page Hss Hstart Hsint Hsp).
  unfold and_then. by cbn [fst snd].
Qed.

End script.

Lemma main_runs_pipeline_witness :
  ∃ pdf mode batch_size start_page,
    pdf ∈ [sample_pdf; empty_pdf]
    ∧ (mode = U "one-pass" ∨ mode = U "two-pass")
    ∧ 1 ≤ batch_size ∧ 1 ≤ start_page
    ∧ run_pipeline last_first (Some (U "key")) sample_ocr always_empty pdf
        start_page mode batch_size
      = ((run_pipeline last_first (Some (U "key")) sample_ocr always_empty
            sample_pdf 2 (U "one-pass") 10).1,
         Returned
           (RawOnly
              (join (NL ++ NL)
                 (page_blocks 2 1 [U "text of page 1"; U "text of page 2";
                                   U "text of page 3"])))).
Proof.
  apply (main_runs_pipeline sample_int last_first (Some (U "key")) sample_ocr
           always_empty [sample_pdf; empty_pdf]
           [U "1"; U "x"; U "1"; U ""; U "0"; U "2"; U "left"] [U "left"]).
  vm_compute. reflexivity.
Defined.

Lemma main_prompts_in_order_witness :
  main sample_int last_first (Some (U "key")) sample_ocr always_empty
    [sample_pdf; empty_pdf]
    [U "1"; U "x"; U "1"; U ""; U "0"; U "2"; U "left"]
  = ([U "left"],
     v ← run_pipeline last_first (Some (U "key")) sample_ocr always_empty
           sample_pdf 2 (U "one-pass") 10;
     mret (Ran v)).
Proof.
  apply (main_prompts_in_order sample_int last_first (Some (U "key"))
           sample_ocr always_empty [sample_pdf; empty_pdf] sample_pdf
           (U "1") 1 [U "x"] (U "1") (U "one-pass") [] (U "") 10
           [U "0"] (U "2") 2 [U "left"]).
  - vm_compute. reflexivity.
  - lia.
  - reflexivity.
  - apply Forall_cons_2; [|apply Forall_nil_2].
    split; vm_compute; discriminate.
  - left. split; [vm_compute|]; reflexivity.
  - apply Forall_nil_2.
  - left. split; [vm_compute|]; reflexivity.
  - apply Forall_cons_2; [|apply Forall_nil_2].
    right. left. exists 0. split; [vm_compute; reflexivity | lia].
  - vm_compute. discriminate.
  - vm_compute. reflexivity.
  - lia.
Defined.

Lemma main_exits_witness :
  main sample_int last_first None sample_ocr always_empty [] [U "1"]
  = ([U "1"], ([], Returned Exited)).
Proof. apply main_exits. done. Defined.
